(** * bfs: bucket-based file systems -- the S3 adapter and its siblings

  A shallow embedding of the bucket adapters of the repository
  (package [bfss3], with the sibling [bfsgs] and [bfsos] adapters where a
  property concerns them) and the proofs of their documented behaviour:
  namespace prefixing, error normalisation, the sized reader, the
  paginated iterator and the staging writer. *)

From Stdlib Require Import ZArith String Ascii List Bool Lia.
From stdpp Require Import base option gmap strings.
Import ListNotations.

Local Open Scope Z_scope.

(** ** Go strings (package [strings]) *)

Module GoStrings.

(** [strip p s] is the rest of [s] after the leading [p], if [s] starts
    with [p]. *)
Fixpoint strip (p s : string) : option string :=
  match p with
  | EmptyString => Some s
  | String a p' =>
      match s with
      | EmptyString => None
      | String b s' => if Ascii.eqb a b then strip p' s' else None
      end
  end.

(** [strings.HasPrefix(s, prefix)] *)
Definition HasPrefix (s p : string) : bool :=
  match strip p s with Some _ => true | None => false end.

(** [strings.TrimPrefix(s, prefix)]: [s] without the leading [prefix];
    [s] itself when it does not start with [prefix]. *)
Definition TrimPrefix (s p : string) : string :=
  match strip p s with Some r => r | None => s end.

(** [strings.HasSuffix(s, suffix)]:
    [len(s) >= len(suffix) && s[len(s)-len(suffix):] == suffix] *)
Definition HasSuffix (s suf : string) : bool :=
  (String.length suf <=? String.length s)%nat
  && String.eqb
       (String.substring (String.length s - String.length suf)
          (String.length suf) s)
       suf.
End GoStrings.

(** ** Go paths (package [path])

  [path.Clean] and [path.Join] belong to Go's standard library.  [Clean]
  is modelled on the elements of the path, following its documented
  rules: (1) replace multiple slashes with a single slash, (2) eliminate
  each [.] element, (3) eliminate each inner [..] element along with the
  non-[..] element that precedes it, (4) eliminate [..] elements that
  begin a rooted path; the empty result is [.]. *)

Module GoPath.

(** [strings.Split(s, "/")] *)
Fixpoint split (s : string) : list string :=
  match s with
  | EmptyString => [EmptyString]
  | String c r =>
      if Ascii.eqb c "/" then EmptyString :: split r
      else match split r with
           | h :: t => String c h :: t
           | [] => [String c EmptyString]
           end
  end.

(** [strings.Join(elems, "/")] *)
Fixpoint join (l : list string) : string :=
  match l with
  | [] => EmptyString
  | [x] => x
  | x :: r => x +:+ "/" +:+ join r
  end.

Definition rooted (s : string) : bool :=
  match s with String c _ => Ascii.eqb c "/" | EmptyString => false end.

(** One element of the path is processed against the elements written so
    far, kept last-first in [out]. *)
Definition clean_step (rt : bool) (out : list string) (e : string)
  : list string :=
  if String.eqb e "" then out
  else if String.eqb e "." then out
  else if String.eqb e ".." then
    match out with
    | top :: rest =>
        if String.eqb top ".." then ".." :: out else rest
    | [] => if rt then [] else [".."]
    end
  else e :: out.

Definition clean_elems (rt : bool) (es : list string) : list string :=
  fold_left (clean_step rt) es [].

Definition render (rt : bool) (out : list string) : string :=
  if rt then "/" +:+ join (rev out)
  else match out with [] => "." | _ => join (rev out) end.

(** [path.Clean(path)] *)
Definition Clean (p : string) : string :=
  if String.eqb p "" then "."
  else render (rooted p) (clean_elems (rooted p) (split p)).

(** [path.Join(elem...)]: from the first non-empty element on, the
    elements are joined with slashes and the result is cleaned; no
    non-empty element gives the empty string. *)
Fixpoint Join (elem : list string) : string :=
  match elem with
  | [] => ""
  | e :: rest => if String.eqb e "" then Join rest else Clean (join elem)
  end.

End GoPath.

(** ** Go values shared by the adapters *)

(** The error values the adapters tell apart.  A Go [error] is an
    [option error]; [None] is [nil]. *)
Inductive error : Type :=
| ErrNotFound                                 (* bfs.ErrNotFound *)
| Canceled                                    (* context.Canceled *)
| EOF                                         (* io.EOF *)
| ErrBadPattern                               (* doublestar.ErrBadPattern *)
| ErrObjectNotExist                           (* storage.ErrObjectNotExist *)
| Done                                        (* iterator.Done *)
| RequestFailure (code : string) (status : Z) (* awserr.RequestFailure *)
| AwsError (code : string)                    (* awserr.Error, no HTTP status *)
| PathError (notExist exists_ : bool)         (* *os.PathError, as os.IsNotExist / os.IsExist see it *)
| OtherError (msg : string).

(** [time.Time], counted from the zero time [time.Time{}]. *)
Definition Time : Type := Z.
Definition zeroTime : Time := 0.

(** Go's [int] and [int64] are 64 bits wide; arithmetic wraps around. *)
Definition wrap64 (z : Z) : Z := (z + 2 ^ 63) mod 2 ^ 64 - 2 ^ 63.

Definition len {A} (l : list A) : Z := Z.of_nat (length l).

(** [l[i]]: indexing outside [0 <= i < len(l)] panics, which is [None]. *)
Definition index {A} (l : list A) (i : Z) : option A :=
  if (0 <=? i) && (i <? len l) then nth_error l (Z.to_nat i) else None.

(** ** Backend calls and their log *)

(** Every call that leaves the process (to the object store, or to the
    operating system for the staging file) is recorded. *)
Inductive Call : Type :=
| CallHeadObject (bkt key : string)
| CallGetObject (bkt key : string)
| CallDeleteObject (bkt key : string)
| CallCopyObject (bkt source key : string)
| CallListObjectsV2 (bkt prefix : string) (token : option string)
| CallUpload (bkt key body : string)
| CallTempFile
| CallFileClose (fname : string)
| CallOpen (fname : string)
| CallRemove (fname : string)
| CallGsDelete (key : string)
| CallGsCopy (src dst : string)
| CallGsNext.

Record St (W : Type) : Type := mkSt { world : W; calls : list Call }.
Arguments mkSt {W} _ _.
Arguments world {W} _.
Arguments calls {W} _.

(** Stateful code: a computation takes the state of the outside world and
    the log, and returns its result with the new state. *)
Definition M (W A : Type) : Type := St W -> A * St W.

Definition ret {W A} (a : A) : M W A := fun st => (a, st).

Definition bind {W A B} (m : M W A) (k : A -> M W B) : M W B :=
  fun st => let (a, st') := m st in k a st'.

Notation "'let*' x ':=' m 'in' k" := (bind m (fun x => k))
  (at level 10, x name, m at level 100, k at level 200).

(** One call: the world answers and moves on, the log grows by the call. *)
Definition call {W A} (c : Call) (f : W -> A * W) : M W A :=
  fun st =>
    let (a, w') := f (world st) in
    (a, mkSt w' (calls st ++ [c])).

(** ** Package [bfs] *)

Module bfs.

Record WriteOptions : Type := {
  ContentType : string;
  Metadata : gmap string string
}.

(** [GetContentType] and [GetMetadata] accept the nil pointer. *)
Definition GetContentType (o : option WriteOptions) : string :=
  match o with Some o => ContentType o | None => "" end.

Definition GetMetadata (o : option WriteOptions) : gmap string string :=
  match o with Some o => Metadata o | None => ∅ end.

Record MetaInfo : Type := {
  Name : string;
  Size : Z;
  ModTime : Time;
  MetaContentType : string;
  MetaMetadata : gmap string string
}.

End bfs.

(** ** The AWS SDK as the adapter sees it *)

Module s3.

(** [http.StatusNotFound], [s3.ErrCodeNoSuchKey], [request.CanceledErrorCode] *)
Definition StatusNotFound : Z := 404.
Definition ErrCodeNoSuchKey : string := "NoSuchKey".
Definition CanceledErrorCode : string := "RequestCanceled".

(** Pointer fields of the SDK's structures are options; [aws.StringValue],
    [aws.Int64Value] and [aws.TimeValue] read nil as the zero value. *)
Definition StringValue (p : option string) : string := default "" p.
Definition Int64Value (p : option Z) : Z := default 0 p.
Definition TimeValue (p : option Time) : Time := default zeroTime p.
Definition StringValueMap (m : gmap string (option string)) : gmap string string :=
  StringValue <$> m.

Record HeadObjectOutput : Type := {
  HeadContentLength : option Z;
  HeadLastModified : option Time;
  HeadContentType : option string;
  HeadMetadata : gmap string (option string)
}.

(** [Body] is the state of the transport's stream. *)
Record GetObjectOutput (R : Type) : Type := {
  Body : R;
  ContentLength : option Z
}.
Arguments Body {R} _.
Arguments ContentLength {R} _.

Record Object : Type := {
  Key : option string;
  Size : option Z;
  LastModified : option Time
}.

Record ListObjectsV2Output : Type := {
  Contents : list (option Object);
  NextContinuationToken : option string
}.

Record CopyObjectInput : Type := {
  CopyBucket : string;
  CopySource : string;
  CopyKey : string;
  CopyACL : option string;
  CopyGrantFullControl : option string;
  CopyServerSideEncryption : option string
}.

Record UploadInput : Type := {
  UpBucket : string;
  UpKey : string;
  UpBody : string;  (* the staging file that is streamed *)
  UpContentType : string;
  UpMetadata : gmap string string;
  UpACL : option string;
  UpGrantFullControl : option string;
  UpServerSideEncryption : option string
}.

(** The client ([s3iface.S3API]) and the uploader, over a world [W] they
    act on; [R] is the state of a response body. *)
Record API (W R : Type) : Type := {
  HeadObjectWithContext : string -> string -> W -> (HeadObjectOutput + error) * W;
  GetObjectWithContext : string -> string -> W -> (GetObjectOutput R + error) * W;
  DeleteObjectWithContext : string -> string -> W -> option error * W;
  CopyObjectWithContext : CopyObjectInput -> W -> option error * W;
  ListObjectsV2WithContext :
    string -> string -> option string -> W -> (ListObjectsV2Output + error) * W;
  UploadWithContext : UploadInput -> W -> option error * W
}.
Arguments HeadObjectWithContext {W R} _ _ _ _.
Arguments GetObjectWithContext {W R} _ _ _ _.
Arguments DeleteObjectWithContext {W R} _ _ _ _.
Arguments CopyObjectWithContext {W R} _ _ _.
Arguments ListObjectsV2WithContext {W R} _ _ _ _ _.
Arguments UploadWithContext {W R} _ _ _.

End s3.

(** ** The operating system's files, for the staging file of a writer *)

Module os.

Record API (W : Type) : Type := {
  TempFile : W -> (string + error) * W;       (* ioutil.TempFile("", "bfs-s3") *)
  FileClose : string -> W -> option error * W; (* os.File.Close *)
  Open : string -> W -> (unit + error) * W;    (* os.Open *)
  Remove : string -> W -> option error * W     (* os.Remove *)
}.
Arguments TempFile {W} _ _.
Arguments FileClose {W} _ _ _.
Arguments Open {W} _ _ _.
Arguments Remove {W} _ _ _.

End os.

(** ** [sync.Once] *)

Module sync.

(** [once.Do(f)] runs [f] the first time only; [done] is the state of the
    [Once].  [dflt] is what the caller is left with when [f] is not run. *)
Definition Once_Do {W A} (done : bool) (f : M W A) (dflt : A) : M W (A * bool) :=
  if done then ret (dflt, true)
  else let* a := f in ret (a, true).

End sync.

(** ** Package [internal] *)

Module internal.

(** Modelled from the spec: [internal.WithinNamespace], whose package is not
    among the sources.  In the spec's words the effective key is the prefix
    followed by the relative name, and the name is joined under the prefix
    with its path-traversal segments collapsed: the name is rooted at the
    slash and cleaned, which drops every [.] and resolves every [..]
    without leaving the root, and what is left, without the leading slash,
    is appended to the namespace as it is. *)
Definition WithinNamespace (ns name : string) : string :=
  ns +:+ GoStrings.TrimPrefix (GoPath.Join ["/"; name]) "/".

End internal.

(** ** Package [doublestar] *)

Module doublestar.

(** Modelled from the spec: [doublestar.Match] belongs to a library that is
    not among the sources.  In the spec's words the syntax of a pattern is
    validated eagerly: a malformed pattern is reported as such whatever name
    it is matched against, and a pattern is malformed when its
    character-class brackets are unbalanced: a class that an opening
    bracket starts is never closed.  [wellformed_from cls p] reads the
    pattern [p] from a position inside a character class (when [cls]) or
    outside one; the pattern is well formed when it ends outside a class.
    How a well-formed pattern matches a name is left to [matches]. *)
Fixpoint wellformed_from (cls : bool) (p : string) : bool :=
  match p with
  | EmptyString => negb cls
  | String c r =>
      if cls then wellformed_from (negb (Ascii.eqb c "]")) r
      else wellformed_from (Ascii.eqb c "[") r
  end.

Definition malformed (p : string) : bool := negb (wellformed_from false p).

Definition Match (matches : string -> string -> bool) (pattern name : string)
  : bool * option error :=
  if malformed pattern then (false, Some ErrBadPattern)
  else (matches pattern name, None).


End doublestar.

(** ** Package [bfss3]: the S3 adapter *)

Module bfss3.
Import GoStrings.

Definition DefaultACL : string := "bucket-owner-full-control".

(** [Config], without the AWS session, which takes no part in what follows. *)
Record Config : Type := {
  ACL : string;
  GrantFullControl : string;
  SSE : string;
  Prefix : string
}.

Definition zeroConfig : Config :=
  {| ACL := ""; GrantFullControl := ""; SSE := ""; Prefix := "" |}.

(** [Config.norm] *)
Definition norm (c : Config) : Config :=
  let acl :=
    if String.eqb (ACL c) "" && String.eqb (GrantFullControl c) ""
    then DefaultACL else ACL c in
  let p := TrimPrefix (Prefix c) "/" in
  let p := if negb (String.eqb p "") && negb (HasSuffix p "/")
           then p +:+ "/" else p in
  {| ACL := acl; GrantFullControl := GrantFullControl c; SSE := SSE c;
     Prefix := p |}.

Record bucket : Type := {
  name : string;      (* the field [bucket] *)
  config : Config
}.

(** [New(name, cfg)] *)
Definition New (nm : string) (cfg : option Config) : bucket :=
  {| name := nm; config := norm (default zeroConfig cfg) |}.

Definition stripPrefix (b : bucket) (nm : string) : string :=
  if String.eqb (Prefix (config b)) "" then nm
  else
    let nm := TrimPrefix nm (Prefix (config b)) in
    let nm := TrimPrefix nm "/" in
    nm.

Definition withPrefix (b : bucket) (nm : string) : string :=
  if String.eqb (Prefix (config b)) "" then nm
  else internal.WithinNamespace (Prefix (config b)) nm.

Definition normError (err : option error) : option error :=
  match err with
  | None => None
  | Some (RequestFailure _ status) =>
      if status =? s3.StatusNotFound then Some ErrNotFound else err
  | Some (AwsError code) =>
      if String.eqb code s3.ErrCodeNoSuchKey then Some ErrNotFound
      else if String.eqb code s3.CanceledErrorCode then Some Canceled
      else err
  | Some _ => err
  end.

Definition strPresence (s : string) : option string :=
  if negb (String.eqb s "") then Some s else None.

(** *** The sized reader *)

Record response (R : Type) : Type := {
  ReadCloser : R;
  ContentLength : Z
}.
Arguments ReadCloser {R} _.
Arguments ContentLength {R} _.

(** *** The iterator *)

Record object : Type := {
  key : string;
  size : Z;
  modTime : Time
}.

Record iterator : Type := {
  parent : bucket;
  pattern : string;
  token : option string;
  err : option error;
  last : bool;
  pos : Z;
  page : list object
}.

(** *** The writer *)

Record writer : Type := {
  File : string;      (* the staging file, by its name *)
  wbucket : bucket;
  wname : string;
  opts : option bfs.WriteOptions;
  closeOnce : bool    (* whether the [sync.Once] has fired *)
}.

Section Adapter.

Context {W R : Type}.
(** The embedded client and uploader, and the operating system. *)
Variable api : s3.API W R.
Variable fs : os.API W.
(** [doublestar.Match(pattern, name)] *)
Variable Match : string -> string -> bool * option error.
(** [bfs.NormMetadata] *)
Variable NormMetadata : gmap string string -> gmap string string.
(** [Read] of the transport's stream: the size of the buffer it is given,
    the count and error it reports. *)
Variable BodyRead : R -> Z -> (Z * option error) * R.

(** [Glob] *)
Definition Glob (b : bucket) (pat : string) : M W (option iterator * option error) :=
  match snd (Match pat "") with
  | Some e => ret (None, Some e)
  | None =>
      ret (Some {| parent := b; pattern := pat; token := None; err := None;
                   last := false; pos := 0; page := [] |}, None)
  end.

(** [Head] *)
Definition Head (b : bucket) (nm : string)
  : M W (option bfs.MetaInfo * option error) :=
  let* r := call (CallHeadObject (name b) (withPrefix b nm))
              (s3.HeadObjectWithContext api (name b) (withPrefix b nm)) in
  match r with
  | inr e => ret (None, normError (Some e))
  | inl resp =>
      ret (Some {| bfs.Name := nm;
                   bfs.Size := s3.Int64Value (s3.HeadContentLength resp);
                   bfs.ModTime := s3.TimeValue (s3.HeadLastModified resp);
                   bfs.MetaContentType := s3.StringValue (s3.HeadContentType resp);
                   bfs.MetaMetadata :=
                     NormMetadata (s3.StringValueMap (s3.HeadMetadata resp)) |},
           None)
  end.

(** [Open] *)
Definition Open (b : bucket) (nm : string)
  : M W (option (response R) * option error) :=
  let* r := call (CallGetObject (name b) (withPrefix b nm))
              (s3.GetObjectWithContext api (name b) (withPrefix b nm)) in
  match r with
  | inr e => ret (None, normError (Some e))
  | inl resp =>
      ret (Some {| ReadCloser := s3.Body resp;
                   ContentLength := s3.Int64Value (s3.ContentLength resp) |},
           None)
  end.

(** [Create] *)
Definition Create (b : bucket) (nm : string) (o : option bfs.WriteOptions)
  : M W (option writer * option error) :=
  let* r := call CallTempFile (os.TempFile fs) in
  match r with
  | inr e => ret (None, Some e)
  | inl f =>
      ret (Some {| File := f; wbucket := b; wname := nm; opts := o;
                   closeOnce := false |}, None)
  end.

(** [Remove] *)
Definition Remove (b : bucket) (nm : string) : M W (option error) :=
  let* e := call (CallDeleteObject (name b) (withPrefix b nm))
              (s3.DeleteObjectWithContext api (name b) (withPrefix b nm)) in
  ret (normError e).

(** [Copy] *)
Definition Copy (b : bucket) (src dst : string) : M W (option error) :=
  let source := GoPath.Join ["/"; name b; withPrefix b src] in
  let input :=
    {| s3.CopyBucket := name b;
       s3.CopySource := source;
       s3.CopyKey := withPrefix b dst;
       s3.CopyACL := strPresence (ACL (config b));
       s3.CopyGrantFullControl := strPresence (GrantFullControl (config b));
       s3.CopyServerSideEncryption := strPresence (SSE (config b)) |} in
  let* e := call (CallCopyObject (name b) source (withPrefix b dst))
              (s3.CopyObjectWithContext api input) in
  ret e.

(** The staging file is removed at the end ([defer os.Remove(fname)]). *)
Definition removeStaging (fname : string) : M W unit :=
  let* _ := call (CallRemove fname) (os.Remove fs fname) in ret tt.

(** The function [Discard] hands to [closeOnce.Do]. *)
Definition discardOnce (w : writer) : M W (option error) :=
  let fname := File w in
  let* e := call (CallFileClose fname) (os.FileClose fs fname) in
  let* _ := removeStaging fname in
  ret e.

(** [writer.Discard] *)
Definition Discard (w : writer) : M W (option error * writer) :=
  let* r := sync.Once_Do (closeOnce w) (discardOnce w) (Some Canceled) in
  ret (fst r,
       {| File := File w; wbucket := wbucket w; wname := wname w;
          opts := opts w; closeOnce := snd r |}).

(** The function [Commit] hands to [closeOnce.Do]. *)
Definition commitOnce (w : writer) : M W (option error) :=
  let fname := File w in
  let* e := call (CallFileClose fname) (os.FileClose fs fname) in
  match e with
  | Some _ => let* _ := removeStaging fname in ret e
  | None =>
      let* r := call (CallOpen fname) (os.Open fs fname) in
      match r with
      | inr e => let* _ := removeStaging fname in ret (Some e)
      | inl _ =>
          let b := wbucket w in
          let input :=
            {| s3.UpBucket := name b;
               s3.UpKey := withPrefix b (wname w);
               s3.UpBody := fname;
               s3.UpContentType := bfs.GetContentType (opts w);
               s3.UpMetadata := bfs.GetMetadata (opts w);
               s3.UpACL := strPresence (ACL (config b));
               s3.UpGrantFullControl := strPresence (GrantFullControl (config b));
               s3.UpServerSideEncryption := strPresence (SSE (config b)) |} in
          let* e := call (CallUpload (name b) (withPrefix b (wname w)) fname)
                      (s3.UploadWithContext api input) in
          (* deferred: file.Close(), then os.Remove(fname) *)
          let* _ := call (CallFileClose fname) (os.FileClose fs fname) in
          let* _ := removeStaging fname in
          ret e
      end
  end.

(** [writer.Commit] *)
Definition Commit (w : writer) : M W (option error * writer) :=
  let* r := sync.Once_Do (closeOnce w) (commitOnce w) (Some Canceled) in
  ret (normError (fst r),
       {| File := File w; wbucket := wbucket w; wname := wname w;
          opts := opts w; closeOnce := snd r |}).

(** [response.Read(p)], by the length of [p]. *)
Definition Read (r : response R) (lenp : Z) : (Z * option error) * response R :=
  if ContentLength r <=? 0 then ((0, Some EOF), r)
  else
    let lenp := if lenp >? ContentLength r then ContentLength r else lenp in
    let '((n, e), body) := BodyRead (ReadCloser r) lenp in
    let e :=
      match e with
      | Some EOF => if (n >? 0) && (n =? ContentLength r) then None else e
      | _ => e
      end in
    ((n, e), {| ReadCloser := body; ContentLength := wrap64 (ContentLength r - n) |}).

(** [iterator.Close] *)
Definition Close (i : iterator) : option error * iterator :=
  (None,
   {| parent := parent i; pattern := pattern i; token := token i; err := err i;
      last := true; pos := len (page i); page := page i |}).

(** The accessors; [None] is the panic of an index out of range. *)
Definition Name (i : iterator) : option string :=
  if pos i <? len (page i) then key <$> index (page i) (pos i) else Some "".

Definition Size (i : iterator) : option Z :=
  if pos i <? len (page i) then size <$> index (page i) (pos i) else Some 0.

Definition ModTime (i : iterator) : option Time :=
  if pos i <? len (page i) then modTime <$> index (page i) (pos i)
  else Some zeroTime.

Definition Error (i : iterator) : option error := err i.

(** The loop of [fetchNextPage] over [res.Contents]: the names that match
    are appended to the page; a failing match returns at once, with the
    page as it is. *)
Fixpoint matchContents (b : bucket) (pat : string)
  (contents : list (option s3.Object)) (pg : list object)
  : option error * list object :=
  match contents with
  | [] => (None, pg)
  | None :: rest => matchContents b pat rest pg
  | Some obj :: rest =>
      let nm := stripPrefix b (s3.StringValue (s3.Key obj)) in
      match Match pat nm with
      | (_, Some e) => (Some e, pg)
      | (true, None) =>
          matchContents b pat rest
            (pg ++ [{| key := nm; size := s3.Int64Value (s3.Size obj);
                       modTime := s3.TimeValue (s3.LastModified obj) |}])
      | (false, None) => matchContents b pat rest pg
      end
  end.

(** [iterator.fetchNextPage] *)
Definition fetchNextPage (i : iterator) : M W (option error * iterator) :=
  let b := parent i in
  let* r := call (CallListObjectsV2 (name b) (Prefix (config b)) (token i))
              (s3.ListObjectsV2WithContext api (name b) (Prefix (config b))
                 (token i)) in
  match r with
  | inr e =>
      ret (Some e,
           {| parent := b; pattern := pattern i; token := token i; err := err i;
              last := last i; pos := -1; page := [] |})
  | inl res =>
      let tok := s3.NextContinuationToken res in
      let '(e, pg) := matchContents b (pattern i) (s3.Contents res) [] in
      ret (e,
           {| parent := b; pattern := pattern i; token := tok; err := err i;
              last := match tok with None => true | Some _ => false end;
              pos := -1; page := pg |})
  end.

(** [i.pos++] *)
Definition advance (i : iterator) : iterator :=
  {| parent := parent i; pattern := pattern i; token := token i; err := err i;
     last := last i; pos := wrap64 (pos i + 1); page := page i |}.

(** [i.err = err] *)
Definition setErr (e : error) (i : iterator) : iterator :=
  {| parent := parent i; pattern := pattern i; token := token i; err := Some e;
     last := last i; pos := pos i; page := page i |}.

(** [iterator.Next].  The method calls itself after each page it fetches;
    [fuel] bounds the number of these calls, and [None] is the answer of a
    run that needs more. *)
Fixpoint Next (fuel : nat) (i : iterator) : M W (option bool * iterator) :=
  match err i with
  | Some _ => ret (Some false, i)
  | None =>
      let i1 := advance i in
      if pos i1 <? len (page i1) then ret (Some true, i1)
      else if last i1 then ret (Some false, i1)
      else
        let* r := fetchNextPage i1 in
        match fst r with
        | Some e => ret (Some false, setErr e (snd r))
        | None =>
            match fuel with
            | O => ret (None, snd r)
            | S fuel' => Next fuel' (snd r)
            end
        end
  end.

End Adapter.

End bfss3.

(** ** Package [bfsgs]: the Google Cloud Storage adapter *)

Module bfsgs.
Import GoStrings.

Record Config : Type := {
  Prefix : string;
  PredefinedACL : string
}.

Definition zeroConfig : Config := {| Prefix := ""; PredefinedACL := "" |}.

(** [Config.norm] *)
Definition norm (c : Config) : Config :=
  let p := TrimPrefix (Prefix c) "/" in
  let p := if negb (String.eqb p "") && negb (HasSuffix p "/")
           then p +:+ "/" else p in
  {| Prefix := p; PredefinedACL := PredefinedACL c |}.

Record gsBucket : Type := { config : Config }.

Definition stripPrefix (b : gsBucket) (nm : string) : string :=
  if String.eqb (Prefix (config b)) "" then nm
  else
    let nm := TrimPrefix nm (Prefix (config b)) in
    let nm := TrimPrefix nm "/" in
    nm.

Definition withPrefix (b : gsBucket) (nm : string) : string :=
  if String.eqb (Prefix (config b)) "" then nm
  else internal.WithinNamespace (Prefix (config b)) nm.

Definition normError (err : option error) : option error :=
  match err with
  | Some ErrObjectNotExist => Some ErrNotFound
  | _ => err
  end.

(** [storage.ObjectAttrs], the fields the iterator reads. *)
Record ObjectAttrs : Type := {
  AttrName : string;
  AttrSize : Z;
  AttrUpdated : Time
}.

(** The handles of package [storage] over a world [W]; [I] is the state of
    a [storage.ObjectIterator]. *)
Record API (W I : Type) : Type := {
  Delete : string -> W -> option error * W;
  CopierRun : string -> string -> W -> option error * W;
  IterNext : I -> W -> ((ObjectAttrs + error) * I) * W
}.
Arguments Delete {W I} _ _ _.
Arguments CopierRun {W I} _ _ _ _.
Arguments IterNext {W I} _ _ _.

Record object : Type := {
  oname : string;
  size : Z;
  modTime : Time
}.

Record iterator (I : Type) : Type := {
  parent : gsBucket;
  iter : I;
  pattern : string;
  current : object;
  err : option error
}.
Arguments parent {I} _.
Arguments iter {I} _.
Arguments pattern {I} _.
Arguments current {I} _.
Arguments err {I} _.

Section Adapter.

Context {W I : Type}.
Variable api : API W I.
(** [doublestar.Match(pattern, name)] *)
Variable Match : string -> string -> bool * option error.

(** [Remove] *)
Definition Remove (b : gsBucket) (nm : string) : M W (option error) :=
  let* e := call (CallGsDelete (withPrefix b nm)) (Delete api (withPrefix b nm)) in
  match e with
  | Some ErrObjectNotExist => ret None
  | _ => ret e
  end.

(** [Copy] *)
Definition Copy (b : gsBucket) (src dst : string) : M W (option error) :=
  let* e := call (CallGsCopy (withPrefix b src) (withPrefix b dst))
              (CopierRun api (withPrefix b dst) (withPrefix b src)) in
  ret e.

(** The [for] loop of [iterator.Next]; [fuel] bounds the number of times
    the loop goes round again, and [None] is the answer of a run that needs
    more. *)
Fixpoint nextLoop (fuel : nat) (i : iterator I) : M W (option bool * iterator I) :=
  let* r := call CallGsNext
              (fun w => let '(r, it, w') := IterNext api (iter i) w in
                        ((r, it), w')) in
  let i1 := {| parent := parent i; iter := snd r; pattern := pattern i;
               current := current i; err := err i |} in
  match fst r with
  | inr e =>
      ret (Some false,
           {| parent := parent i1; iter := iter i1; pattern := pattern i1;
              current := current i1; err := Some e |})
  | inl obj =>
      let nm := stripPrefix (parent i1) (AttrName obj) in
      match Match (pattern i1) nm with
      | (_, Some e) =>
          ret (Some false,
               {| parent := parent i1; iter := iter i1;
                  pattern := pattern i1; current := current i1;
                  err := Some e |})
      | (true, None) =>
          ret (Some true,
               {| parent := parent i1; iter := iter i1;
                  pattern := pattern i1;
                  current := {| oname := nm; size := AttrSize obj;
                                modTime := AttrUpdated obj |};
                  err := err i1 |})
      | (false, None) =>
          match fuel with
          | O => ret (None, i1)
          | S fuel' => nextLoop fuel' i1
          end
      end
  end.

(** [iterator.Next] *)
Definition Next (fuel : nat) (i : iterator I) : M W (option bool * iterator I) :=
  match err i with
  | Some _ => ret (Some false, i)
  | None => nextLoop fuel i
  end.

(** [iterator.Error] *)
Definition Error (i : iterator I) : option error :=
  match err i with
  | Some Done => None
  | e => e
  end.

End Adapter.

End bfsgs.

(** ** Package [bfsos]: the local file system adapter *)

Module bfsos.

Record bucket : Type := { root : string }.

(** [New(root)]; the separator is the slash. *)
Definition New (rt : string) : bucket :=
  let rt := if String.eqb rt "" then "." else rt in
  {| root := GoPath.Clean rt +:+ "/" |}.

(** [resolve] returns the full, safely rooted path. *)
Definition resolve (b : bucket) (nm : string) : string :=
  GoPath.Join [root b; GoPath.Join ["/"; nm]].

(** [os.IsExist] *)
Definition IsExist (e : error) : bool :=
  match e with PathError _ ex => ex | _ => false end.

Section Adapter.

Context {W : Type}.
Variable fs : os.API W.

(** [Remove] *)
Definition Remove (b : bucket) (nm : string) : M W (option error) :=
  let* e := call (CallRemove (resolve b nm)) (os.Remove fs (resolve b nm)) in
  match e with
  | Some e' => if IsExist e' then ret (Some e') else ret None
  | None => ret None
  end.

End Adapter.

End bfsos.

(** ** Vocabulary of the statements *)

Module Subtree.
Import GoPath.

Fixpoint has_slash (s : string) : bool :=
  match s with
  | EmptyString => false
  | String c r => Ascii.eqb c "/" || has_slash r
  end.

(** A proper path element names a child: it is not empty, not [.], not
    [..], and holds no slash. *)
Definition proper (e : string) : Prop :=
  e <> "" /\ e <> "." /\ e <> ".." /\ has_slash e = false.

(** What [Clean] writes: the elements it keeps are not empty, not [.], and
    hold no slash. *)
Definition written (e : string) : Prop :=
  e <> "" /\ e <> "." /\ has_slash e = false.

(** The path made of [root] and the elements [cs] below it. *)
Definition under (root : string) (cs : list string) : string :=
  match cs with
  | [] => root
  | _ =>
      (if String.eqb root "/" then "/"
       else if String.eqb root "." then ""
       else root +:+ "/") +:+ join cs
  end.


End Subtree.

Module Scope.
Import Subtree.

(** The calls a run adds to the log all satisfy [P]. *)
Definition emits {W} (P : Call -> Prop) (st st' : St W) : Prop :=
  exists l, calls st' = calls st ++ l /\ Forall P l.



End Scope.

(** ** An object store in memory

    A small store to run the adapters on: objects by key with their size,
    and the names of the staging files that exist. *)

Module Mem.

Record World : Type := {
  objects : gmap string Z;
  staged : list string
}.

Definition empty : World := {| objects := ∅; staged := [] |}.

Definition notFound : error := RequestFailure s3.ErrCodeNoSuchKey s3.StatusNotFound.

Definition headObject (bkt k : string) (w : World)
  : (s3.HeadObjectOutput + error) * World :=
  match objects w !! k with
  | Some n =>
      (inl {| s3.HeadContentLength := Some n; s3.HeadLastModified := None;
              s3.HeadContentType := None; s3.HeadMetadata := ∅ |}, w)
  | None => (inr notFound, w)
  end.

(** The body of an object is streamed as the count of bytes still to come. *)
Definition getObject (bkt k : string) (w : World)
  : (s3.GetObjectOutput Z + error) * World :=
  match objects w !! k with
  | Some n => (inl {| s3.Body := n; s3.ContentLength := Some n |}, w)
  | None => (inr notFound, w)
  end.

(** Deleting a key of S3 succeeds whether or not the key exists. *)
Definition deleteObject (bkt k : string) (w : World) : option error * World :=
  (None, {| objects := delete k (objects w); staged := staged w |}).

Definition copyObject (i : s3.CopyObjectInput) (w : World) : option error * World :=
  match GoStrings.strip ("/" +:+ s3.CopyBucket i +:+ "/") (s3.CopySource i) with
  | Some src =>
      match objects w !! src with
      | Some n =>
          (None, {| objects := <[s3.CopyKey i := n]> (objects w);
                    staged := staged w |})
      | None => (Some notFound, w)
      end
  | None => (Some notFound, w)
  end.

(** One page holds every key under the prefix. *)
Definition listObjects (bkt prefix : string) (tok : option string) (w : World)
  : (s3.ListObjectsV2Output + error) * World :=
  (inl {| s3.Contents :=
            map (fun kv => Some {| s3.Key := Some (fst kv); s3.Size := Some (snd kv);
                                   s3.LastModified := None |})
              (filter (fun kv => GoStrings.HasPrefix (fst kv) prefix = true)
                 (map_to_list (objects w)));
          s3.NextContinuationToken := None |}, w).

Definition upload (i : s3.UploadInput) (w : World) : option error * World :=
  (None, {| objects := <[s3.UpKey i := 0]> (objects w); staged := staged w |}).

Definition api : s3.API World Z :=
  {| s3.HeadObjectWithContext := headObject;
     s3.GetObjectWithContext := getObject;
     s3.DeleteObjectWithContext := deleteObject;
     s3.CopyObjectWithContext := copyObject;
     s3.ListObjectsV2WithContext := listObjects;
     s3.UploadWithContext := upload |}.

Definition tempFile (w : World) : (string + error) * World :=
  (inl "bfs-s3-0", {| objects := objects w; staged := "bfs-s3-0" :: staged w |}).

Definition fileClose (f : string) (w : World) : option error * World := (None, w).

Definition openFile (f : string) (w : World) : (unit + error) * World :=
  if bool_decide (f ∈ staged w) then (inl tt, w)
  else (inr (PathError true false), w).

Definition removeFile (f : string) (w : World) : option error * World :=
  if bool_decide (f ∈ staged w)
  then (None, {| objects := objects w;
                 staged := filter (fun g => g <> f) (staged w) |})
  else (Some (PathError true false), w).

Definition fs : os.API World :=
  {| os.TempFile := tempFile; os.FileClose := fileClose;
     os.Open := openFile; os.Remove := removeFile |}.

(** The transport hands out what is left of the body, and reports the end
    of the stream with the last bytes. *)
Definition bodyRead (left lenp : Z) : (Z * option error) * Z :=
  let n := Z.max 0 (Z.min left lenp) in
  ((n, if left - n <=? 0 then Some EOF else None), left - n).

(** Deleting an object of Google Cloud Storage fails when it is absent. *)
Definition gsDelete (k : string) (w : World) : option error * World :=
  match objects w !! k with
  | Some _ => (None, {| objects := delete k (objects w); staged := staged w |})
  | None => (Some ErrObjectNotExist, w)
  end.

Definition gsCopy (dst src : string) (w : World) : option error * World :=
  match objects w !! src with
  | Some n => (None, {| objects := <[dst := n]> (objects w); staged := staged w |})
  | None => (Some ErrObjectNotExist, w)
  end.

Definition gsNext (it : list bfsgs.ObjectAttrs) (w : World)
  : ((bfsgs.ObjectAttrs + error) * list bfsgs.ObjectAttrs) * World :=
  match it with
  | o :: rest => ((inl o, rest), w)
  | [] => ((inr Done, []), w)
  end.

Definition gapi : bfsgs.API World (list bfsgs.ObjectAttrs) :=
  {| bfsgs.Delete := gsDelete; bfsgs.CopierRun := gsCopy;
     bfsgs.IterNext := gsNext |}.



(** A matcher for the runs: the pattern [**] matches every name, a pattern
    with an opening bracket is reported as malformed, any other pattern
    matches the name equal to it. *)
Fixpoint has_bracket (s : string) : bool :=
  match s with
  | EmptyString => false
  | String c r => Ascii.eqb c "[" || has_bracket r
  end.

Definition matcher (pat nm : string) : bool * option error :=
  if has_bracket pat then (false, Some ErrBadPattern)
  else if String.eqb pat "**" then (true, None)
  else (String.eqb pat nm, None).

Definition start : St World := mkSt empty [].

(** The same store behind a connection that fails every listing. *)
Definition listFails (bkt prefix : string) (tok : option string) (w : World)
  : (s3.ListObjectsV2Output + error) * World :=
  (inr (OtherError "connection reset"), w).

Definition offline : s3.API World Z :=
  {| s3.HeadObjectWithContext := headObject;
     s3.GetObjectWithContext := getObject;
     s3.DeleteObjectWithContext := deleteObject;
     s3.CopyObjectWithContext := copyObject;
     s3.ListObjectsV2WithContext := listFails;
     s3.UploadWithContext := upload |}.

End Mem.

(** ** Runs and contracts used in the statements *)

Module Runs.

Section Runs.

Context {W R : Type}.
Variable api : s3.API W R.
Variable Match : string -> string -> bool * option error.
Variable BodyRead : R -> Z -> (Z * option error) * R.

(** [k] calls of [Next] in a row, with their answers. *)
Fixpoint NextTimes (k fuel : nat) (i : bfss3.iterator) (st : St W)
  : list (option bool) * bfss3.iterator * St W :=
  match k with
  | O => ([], i, st)
  | S k' =>
      let '((r, i1), st1) := bfss3.Next api Match fuel i st in
      let '(rs, i2, st2) := NextTimes k' fuel i1 st1 in
      (r :: rs, i2, st2)
  end.

(** Calls of [Read] in a row, with buffers of the given sizes. *)
Fixpoint reads (r : bfss3.response R) (sizes : list nat)
  : list (Z * option error) * bfss3.response R :=
  match sizes with
  | [] => ([], r)
  | s :: rest =>
      let '(o, r1) := bfss3.Read BodyRead r (Z.of_nat s) in
      let '(os, r2) := reads r1 rest in
      (o :: os, r2)
  end.

(** The bytes the calls delivered, in all. *)
Definition delivered (outs : list (Z * option error)) : Z :=
  fold_right Z.add 0 (map fst outs).

(** [io.Reader]: a read reports between [0] and [len(p)] bytes. *)
Definition reader_contract : Prop :=
  forall s l, 0 <= l -> 0 <= fst (fst (BodyRead s l)) <= l.

End Runs.

(** The two ways to finalize a writer. *)
Inductive finalizer : Type := ByCommit | ByDiscard.

Definition finalize {W R} (api : s3.API W R) (fs : os.API W) (how : finalizer)
  (w : bfss3.writer) : M W (option error * bfss3.writer) :=
  match how with
  | ByCommit => bfss3.Commit api fs w
  | ByDiscard => bfss3.Discard fs w
  end.

Definition is_remove (f : string) (c : Call) : bool :=
  match c with CallRemove g => String.eqb f g | _ => false end.

Definition is_upload (c : Call) : bool :=
  match c with CallUpload _ _ _ => true | _ => false end.

(** How often the log removes the file [f], and how often it uploads. *)
Definition removals (f : string) (l : list Call) : nat :=
  length (List.filter (is_remove f) l).

Definition uploads (l : list Call) : nat :=
  length (List.filter is_upload l).

Section Stores.

Context {W R I : Type}.

(** S3 deletes a key whether or not it exists; after a delete that
    succeeded the key is absent. *)
Definition s3_delete_contract (api : s3.API W R) (present : W -> string -> bool)
  : Prop :=
  forall bkt k w,
    (present w k = false -> fst (s3.DeleteObjectWithContext api bkt k w) = None)
    /\ (fst (s3.DeleteObjectWithContext api bkt k w) = None ->
        present (snd (s3.DeleteObjectWithContext api bkt k w)) k = false).

(** Google Cloud Storage reports [ErrObjectNotExist] for an absent object
    and leaves the store as it is; after a delete that succeeded, or that
    reported the object as not existing, the object is absent. *)
Definition gs_delete_contract (api : bfsgs.API W I) (present : W -> string -> bool)
  : Prop :=
  forall k w,
    (present w k = false ->
     bfsgs.Delete api k w = (Some ErrObjectNotExist, w))
    /\ (fst (bfsgs.Delete api k w) = None
        \/ fst (bfsgs.Delete api k w) = Some ErrObjectNotExist ->
        present (snd (bfsgs.Delete api k w)) k = false).

End Stores.

End Runs.

(** ** Values for the runs *)

Definition bucket_x : bfss3.bucket :=
  bfss3.New "bkt"
    (Some {| bfss3.ACL := ""; bfss3.GrantFullControl := ""; bfss3.SSE := "";
             bfss3.Prefix := "x" |}).

Definition gs_bucket_x : bfsgs.gsBucket :=
  {| bfsgs.config :=
       bfsgs.norm {| bfsgs.Prefix := "/x"; bfsgs.PredefinedACL := "" |} |}.

Definition mem_present (w : Mem.World) (k : string) : bool :=
  bool_decide (is_Some (Mem.objects w !! k)).

Definition store_one : St Mem.World :=
  mkSt {| Mem.objects := {[ "x/a.txt" := 3 ]}; Mem.staged := [] |} [].

(** A body of ten bytes behind a declared length of four. *)
Definition short_response : bfss3.response Z :=
  {| bfss3.ReadCloser := 10; bfss3.ContentLength := 4 |}.

(** The iterator [Glob] returns for the pattern [**]. *)
Definition fresh_iterator : bfss3.iterator :=
  {| bfss3.parent := bucket_x; bfss3.pattern := "**"; bfss3.token := None;
     bfss3.err := None; bfss3.last := false; bfss3.pos := 0; bfss3.page := [] |}.

(** Closing in the middle of a page that has more to come. *)
Definition mid_iterator : bfss3.iterator :=
  {| bfss3.parent := bucket_x; bfss3.pattern := "**"; bfss3.token := Some "t1";
     bfss3.err := None; bfss3.last := false; bfss3.pos := 0;
     bfss3.page := [ {| bfss3.key := "a"; bfss3.size := 1; bfss3.modTime := 5 |};
                     {| bfss3.key := "b"; bfss3.size := 2; bfss3.modTime := 6 |} ] |}.

Definition created_writer : bfss3.writer :=
  {| bfss3.File := "bfs-s3-0"; bfss3.wbucket := bucket_x; bfss3.wname := "a.txt";
     bfss3.opts := None; bfss3.closeOnce := false |}.

Definition after_create : St Mem.World :=
  snd (bfss3.Create Mem.fs bucket_x "a.txt" None Mem.start).


(** ** More runs *)

Module More.

(** The upload [Commit] asks for. *)
Definition commitInput (w : bfss3.writer) : s3.UploadInput :=
  {| s3.UpBucket := bfss3.name (bfss3.wbucket w);
     s3.UpKey := bfss3.withPrefix (bfss3.wbucket w) (bfss3.wname w);
     s3.UpBody := bfss3.File w;
     s3.UpContentType := bfs.GetContentType (bfss3.opts w);
     s3.UpMetadata := bfs.GetMetadata (bfss3.opts w);
     s3.UpACL := bfss3.strPresence (bfss3.ACL (bfss3.config (bfss3.wbucket w)));
     s3.UpGrantFullControl :=
       bfss3.strPresence (bfss3.GrantFullControl (bfss3.config (bfss3.wbucket w)));
     s3.UpServerSideEncryption :=
       bfss3.strPresence (bfss3.SSE (bfss3.config (bfss3.wbucket w))) |}.


Section Iteration.

Context {W R : Type}.
Variable api : s3.API W R.
Variable Match : string -> string -> bool * option error.

(** The name the iterator shows for a listed object. *)
Definition shownName (b : bfss3.bucket) (obj : s3.Object) : string :=
  bfss3.stripPrefix b (s3.StringValue (s3.Key obj)).

(** What the iterator shows of a listed object. *)
Definition shown (b : bfss3.bucket) (obj : s3.Object) : bfss3.object :=
  {| bfss3.key := shownName b obj;
     bfss3.size := s3.Int64Value (s3.Size obj);
     bfss3.modTime := s3.TimeValue (s3.LastModified obj) |}.

(** The objects of a page whose shown names match the pattern, in the order
    of the page; nil entries do not count. *)
Definition matching (b : bfss3.bucket) (pat : string)
  (contents : list (option s3.Object)) : list bfss3.object :=
  map (shown b)
    (List.filter (fun obj => fst (Match pat (shownName b obj)))
       (omap id contents)).

(** No match of the page fails. *)
Definition matchable (b : bfss3.bucket) (pat : string)
  (contents : list (option s3.Object)) : Prop :=
  Forall (fun obj => snd (Match pat (shownName b obj)) = None) (omap id contents).

(** The three accessors, read together. *)
Definition entry (i : bfss3.iterator) : option bfss3.object :=
  match bfss3.Name i, bfss3.Size i, bfss3.ModTime i with
  | Some n, Some s, Some t =>
      Some {| bfss3.key := n; bfss3.size := s; bfss3.modTime := t |}
  | _, _, _ => None
  end.

(** The loop [for it.Next() { ... }] that reads the accessors at each
    position.  [n] bounds the number of rounds and [fuel] is the fuel of each
    [Next]; the answer is [None] when either runs out. *)
Fixpoint drain (n fuel : nat) (i : bfss3.iterator)
  : M W (option (list (option bfss3.object)) * bfss3.iterator) :=
  match n with
  | O => ret (None, i)
  | S n' =>
      let* r := bfss3.Next api Match fuel i in
      match fst r with
      | None => ret (None, snd r)
      | Some false => ret (Some [], snd r)
      | Some true =>
          let* rest := drain n' fuel (snd r) in
          ret (option_map (cons (entry (snd r))) (fst rest), snd rest)
      end
  end.

(** The pages the backend hands out for the bucket, from a continuation
    token on, until a page comes without a token; the world moves from [w]
    to [w']. *)
Inductive listing (b : bfss3.bucket)
  : option string -> W -> list s3.ListObjectsV2Output -> W -> Prop :=
| listing_last tok w res w' :
    s3.ListObjectsV2WithContext api (bfss3.name b) (bfss3.Prefix (bfss3.config b))
      tok w = (inl res, w') ->
    s3.NextContinuationToken res = None ->
    listing b tok w [res] w'
| listing_more tok w res w1 t rest w' :
    s3.ListObjectsV2WithContext api (bfss3.name b) (bfss3.Prefix (bfss3.config b))
      tok w = (inl res, w1) ->
    s3.NextContinuationToken res = Some t ->
    listing b (Some t) w1 rest w' ->
    listing b tok w (res :: rest) w'.

(** The tokens the pages are asked with. *)
Fixpoint tokens (tok : option string) (pages : list s3.ListObjectsV2Output)
  : list (option string) :=
  match pages with
  | [] => []
  | res :: rest => tok :: tokens (s3.NextContinuationToken res) rest
  end.

(** Everything the pages hold that matches. *)
Definition expected (b : bfss3.bucket) (pat : string)
  (pages : list s3.ListObjectsV2Output) : list bfss3.object :=
  concat (map (fun res => matching b pat (s3.Contents res)) pages).

(** The pages can be matched, and fit Go's [int]. *)
Definition pages_ok (b : bfss3.bucket) (pat : string)
  (pages : list s3.ListObjectsV2Output) : Prop :=
  Forall (fun res => matchable b pat (s3.Contents res)
                     /\ len (s3.Contents res) < 2 ^ 63 - 1) pages.

End Iteration.


(** A store with two objects under the prefix [x/] and one outside it, and
    the one page its listing for the prefix gives. *)
Definition store_three : St Mem.World :=
  mkSt {| Mem.objects := {[ "x/a.txt" := 3; "x/b/c.txt" := 5; "y/z.txt" := 7 ]};
          Mem.staged := [] |} [].

Definition store_three_pages : list s3.ListObjectsV2Output :=
  [ {| s3.Contents :=
         [ Some {| s3.Key := Some "x/a.txt"; s3.Size := Some 3;
                   s3.LastModified := None |};
           Some {| s3.Key := Some "x/b/c.txt"; s3.Size := Some 5;
                   s3.LastModified := None |} ];
       s3.NextContinuationToken := None |} ].

End More.

(** ** Package [bfs]: the registry of schemes *)

Module registry.

(** [url.URL], the fields the resolvers read. *)
Record URL : Type := {
  Scheme : string;
  Host : string;
  Path : string;
  Query : gmap string string
}.

Section Registry.

(** [W] is the world the resolvers act on, [B] the buckets they return. *)
Context {W B : Type}.

(** [Resolver]: constructs a bucket from a URL. *)
Definition Resolver : Type := URL -> M W (option B * option error).

(** [strconv.Quote], which [%q] formats with. *)
Variable Quote : string -> string.
(** [url.Parse] *)
Variable Parse : string -> URL + error.

(** [Register] on the registry [reg]; [None] is the panic
    "protocol ... already registered". *)
Definition Register (scheme : string) (resv : Resolver)
  (reg : gmap string Resolver) : option (gmap string Resolver) :=
  match reg !! scheme with
  | Some _ => None
  | None => Some (<[scheme := resv]> reg)
  end.

(** [Resolve] *)
Definition Resolve (reg : gmap string Resolver) (u : URL)
  : M W (option B * option error) :=
  match reg !! Scheme u with
  | None =>
      ret (None, Some (OtherError ("bfs: unknown URL scheme " +:+ Quote (Scheme u))))
  | Some resv => resv u
  end.

(** [Connect] *)
Definition Connect (reg : gmap string Resolver) (urlStr : string)
  : M W (option B * option error) :=
  match Parse urlStr with
  | inr e => ret (None, Some e)
  | inl u => Resolve reg u
  end.

End Registry.

End registry.

(** ** Values for the registry *)

Module Samples.
Import registry.

(** The resolver package [bfss3] registers for the scheme [s3], as far as
    it fills the fields of [Config] kept here. *)
Definition s3_resolver : @Resolver Mem.World bfss3.bucket :=
  fun u =>
    let prefix := if String.eqb (Path u) "" then default "" (Query u !! "prefix")
                  else Path u in
    ret (Some (bfss3.New (Host u)
                 (Some {| bfss3.ACL := default "" (Query u !! "acl");
                          bfss3.GrantFullControl :=
                            default "" (Query u !! "grant-full-control");
                          bfss3.SSE := default "" (Query u !! "sse");
                          bfss3.Prefix := prefix |})),
         None).

Definition url_s3 : URL :=
  {| Scheme := "s3"; Host := "bkt"; Path := "/x"; Query := ∅ |}.

Definition url_ftp : URL :=
  {| Scheme := "ftp"; Host := "h"; Path := "/"; Query := ∅ |}.

Definition parse (s : string) : URL + error :=
  if String.eqb s "s3://bkt/x" then inl url_s3
  else if String.eqb s "ftp://h/" then inl url_ftp
  else inr (OtherError "parse").

Definition quote (s : string) : string :=
  String (Ascii.ascii_of_nat 34) (s +:+ String (Ascii.ascii_of_nat 34) EmptyString).

(** A matcher that fails on the name [bad] and takes every other name. *)
Definition fails_on_bad (pat nm : string) : bool * option error :=
  if String.eqb nm "bad" then (false, Some ErrBadPattern) else (true, None).

Definition listed_good : s3.Object :=
  {| s3.Key := Some "x/good"; s3.Size := Some 1; s3.LastModified := Some 4 |}.

Definition listed_bad : s3.Object :=
  {| s3.Key := Some "x/bad"; s3.Size := Some 2; s3.LastModified := Some 5 |}.

End Samples.

(** ** More of package [bfsgs]: the iterator's accessors and its loop *)

Module gsiter.

(** [iterator.Close] does nothing. *)
Definition Close {I} (i : bfsgs.iterator I) : option error := None.

(** [iterator.Name], [iterator.Size], [iterator.ModTime] *)
Definition Name {I} (i : bfsgs.iterator I) : string := bfsgs.oname (bfsgs.current i).
Definition Size {I} (i : bfsgs.iterator I) : Z := bfsgs.size (bfsgs.current i).
Definition ModTime {I} (i : bfsgs.iterator I) : Time := bfsgs.modTime (bfsgs.current i).

Section Loop.

Context {W I : Type}.
Variable api : bfsgs.API W I.
Variable Match : string -> string -> bool * option error.

(** The loop [for it.Next() { ... }] that reads the accessors at each
    position.  [n] bounds the number of rounds and [fuel] is the fuel of each
    [Next]; the answer is [None] when either runs out. *)
Fixpoint drain (n fuel : nat) (i : bfsgs.iterator I)
  : M W (option (list (string * Z * Time)) * bfsgs.iterator I) :=
  match n with
  | O => ret (None, i)
  | S n' =>
      let* r := bfsgs.Next api Match fuel i in
      match fst r with
      | None => ret (None, snd r)
      | Some false => ret (Some [], snd r)
      | Some true =>
          let* rest := drain n' fuel (snd r) in
          ret (option_map
                 (cons (Name (snd r), Size (snd r), ModTime (snd r)))
                 (fst rest),
               snd rest)
      end
  end.

(** The objects the storage iterator hands out, from the state [it] on,
    until it reports [iterator.Done]. *)
Inductive drawn : I -> W -> list bfsgs.ObjectAttrs -> I -> W -> Prop :=
| drawn_done it w it' w' :
    bfsgs.IterNext api it w = ((inr Done, it'), w') ->
    drawn it w [] it' w'
| drawn_more it w obj it1 w1 rest it' w' :
    bfsgs.IterNext api it w = ((inl obj, it1), w1) ->
    drawn it1 w1 rest it' w' ->
    drawn it w (obj :: rest) it' w'.

(** The name the iterator shows for an object. *)
Definition shownName (b : bfsgs.gsBucket) (obj : bfsgs.ObjectAttrs) : string :=
  bfsgs.stripPrefix b (bfsgs.AttrName obj).

(** What the accessors show of the objects whose shown names match. *)
Definition matching (b : bfsgs.gsBucket) (pat : string)
  (objs : list bfsgs.ObjectAttrs) : list (string * Z * Time) :=
  map (fun obj => (shownName b obj, bfsgs.AttrSize obj, bfsgs.AttrUpdated obj))
    (List.filter (fun obj => fst (Match pat (shownName b obj))) objs).

(** No match fails. *)
Definition matchable (b : bfsgs.gsBucket) (pat : string)
  (objs : list bfsgs.ObjectAttrs) : Prop :=
  Forall (fun obj => snd (Match pat (shownName b obj)) = None) objs.

End Loop.

(** An iterator over three objects of the store, for the runs. *)
Definition three_objects : list bfsgs.ObjectAttrs :=
  [ {| bfsgs.AttrName := "x/a.txt"; bfsgs.AttrSize := 3; bfsgs.AttrUpdated := 10 |};
    {| bfsgs.AttrName := "x/skip"; bfsgs.AttrSize := 1; bfsgs.AttrUpdated := 11 |};
    {| bfsgs.AttrName := "x/b/c.txt"; bfsgs.AttrSize := 5; bfsgs.AttrUpdated := 12 |} ].

Definition gs_fresh (pat : string) : bfsgs.iterator (list bfsgs.ObjectAttrs) :=
  {| bfsgs.parent := gs_bucket_x; bfsgs.iter := three_objects;
     bfsgs.pattern := pat;
     bfsgs.current := {| bfsgs.oname := ""; bfsgs.size := 0; bfsgs.modTime := 0 |};
     bfsgs.err := None |}.

(** A matcher that takes every name but [skip]. *)
Definition no_skip (pat nm : string) : bool * option error :=
  (negb (String.eqb nm "skip"), None).

End gsiter.
(** * Facts about the Go string and path functions *)

Module GoStringsFacts.
Import GoStrings.

Lemma strip_app p r : strip p (p +:+ r) = Some r.
Proof.
  induction p as [|a p IH]; simpl; [reflexivity|].
  rewrite Ascii.eqb_refl. exact IH.
Qed.

Lemma strip_Some p s r : strip p s = Some r -> s = p +:+ r.
Proof.
  revert s; induction p as [|a p IH]; simpl; intros s H.
  - injection H as ->. reflexivity.
  - destruct s as [|b s]; [discriminate|].
    destruct (Ascii.eqb_spec a b) as [->|]; [|discriminate].
    change (String b s = String b (p +:+ r)). f_equal. now apply IH.
Qed.


Lemma TrimPrefix_app p r : TrimPrefix (p +:+ r) p = r.
Proof. unfold TrimPrefix. now rewrite strip_app. Qed.

Lemma TrimPrefix_no_prefix s p : HasPrefix s p = false -> TrimPrefix s p = s.
Proof.
  unfold HasPrefix, TrimPrefix. now destruct (strip p s).
Qed.

End GoStringsFacts.

Module GoPathTables.
Import GoPath.

Example Clean_table :
  map Clean
    [""; "abc"; "abc/def"; "a/b/c"; "."; ".."; "../.."; "../../abc"; "/abc";
     "/"; "abc/"; "abc/def/"; "a/b/c/"; "./"; "../"; "../../"; "/abc/";
     "abc//def//ghi"; "//abc"; "///abc"; "//abc//"; "abc//";
     "abc/./def"; "/./abc/def"; "abc/.";
     "abc/def/ghi/../jkl"; "abc/def/../ghi/../jkl"; "abc/def/.."; "abc/def/../..";
     "/abc/def/../.."; "abc/def/../../.."; "/abc/def/../../..";
     "abc/def/../../../ghi/jkl/../../../mno";
     "abc/./../def"; "abc//./../def"; "abc/../../././../def"]
  = ["."; "abc"; "abc/def"; "a/b/c"; "."; ".."; "../.."; "../../abc"; "/abc";
     "/"; "abc"; "abc/def"; "a/b/c"; "."; ".."; "../.."; "/abc";
     "abc/def/ghi"; "/abc"; "/abc"; "/abc"; "abc";
     "abc/def"; "/abc/def"; "abc";
     "abc/def/jkl"; "abc/jkl"; "abc"; ".";
     "/"; ".."; "/";
     "../../mno";
     "def"; "def"; "../../def"].
Proof. reflexivity. Qed.

Example Join_table :
  map Join
    [["a"; "b"]; ["a"; ""]; [""; "b"]; ["/"; "a"]; ["/"; ""]; ["a/"; "b"];
     ["a/"; ""]; [""; ""]; []; ["a"]; ["a"; "b"; "c"]; ["/"; "bkt"; "x/../y"]]
  = ["a/b"; "a"; "b"; "/a"; "/"; "a/b"; "a"; ""; ""; "a"; "a/b/c"; "/bkt/y"].
Proof. reflexivity. Qed.

End GoPathTables.

(** * The elements of a cleaned path *)

Module GoPathFacts.
Import GoPath Subtree.

Lemma app_cons c a b : String c a +:+ b = String c (a +:+ b).
Proof. reflexivity. Qed.

Lemma app_empty_l a : "" +:+ a = a.
Proof. reflexivity. Qed.

Lemma app_empty_r a : a +:+ "" = a.
Proof. induction a as [|c a IH]; [reflexivity|]. now rewrite app_cons, IH. Qed.

Lemma app_assoc a b c : (a +:+ b) +:+ c = a +:+ (b +:+ c).
Proof.
  induction a as [|x a IH]; [reflexivity|]. now rewrite !app_cons, IH.
Qed.

Lemma eqb_false_iff (a b : string) : String.eqb a b = false <-> a <> b.
Proof. destruct (String.eqb_spec a b); split; congruence. Qed.

Lemma split_not_nil s : split s <> [].
Proof.
  destruct s as [|c s]; simpl; [discriminate|].
  destruct (Ascii.eqb c "/"); [discriminate|].
  destruct (split s); discriminate.
Qed.

Lemma split_no_slash s : Forall (fun e => has_slash e = false) (split s).
Proof.
  induction s as [|c s IH]; simpl.
  - repeat constructor.
  - destruct (Ascii.eqb c "/") eqn:E.
    + constructor; [reflexivity|exact IH].
    + destruct (split s) as [|h t].
      * repeat constructor. simpl. now rewrite E.
      * inversion IH; subst. constructor; [|assumption].
        simpl. now rewrite E.
Qed.

Lemma split_app a b : split (a +:+ "/" +:+ b) = split a ++ split b.
Proof.
  induction a as [|c a IH].
  - reflexivity.
  - rewrite app_cons. simpl. rewrite IH.
    destruct (Ascii.eqb c "/"); [reflexivity|].
    destruct (split a) as [|h t] eqn:E; [now apply split_not_nil in E|].
    reflexivity.
Qed.

Lemma split_one e : has_slash e = false -> split e = [e].
Proof.
  induction e as [|c e IH]; simpl; intros H; [reflexivity|].
  apply orb_false_iff in H as [-> H]. now rewrite (IH H).
Qed.

Lemma split_join cs :
  Forall (fun e => has_slash e = false) cs -> cs <> [] -> split (join cs) = cs.
Proof.
  induction cs as [|x r IH]; intros H Hne; [congruence|].
  inversion H as [|? ? Hx Hr]; subst.
  destruct r as [|y r].
  - simpl. now apply split_one.
  - change (join (x :: y :: r)) with (x +:+ "/" +:+ join (y :: r)).
    rewrite split_app, (split_one _ Hx), IH; [reflexivity|assumption|discriminate].
Qed.

Lemma join_app a c :
  a <> [] -> c <> [] -> join (a ++ c) = join a +:+ "/" +:+ join c.
Proof.
  induction a as [|x a IH]; intros Ha Hc; [congruence|].
  destruct a as [|y a].
  - simpl. destruct c; [congruence|reflexivity].
  - change (join ((x :: y :: a) ++ c)) with (x +:+ "/" +:+ join ((y :: a) ++ c)).
    rewrite IH by (assumption || discriminate).
    change (join (x :: y :: a)) with (x +:+ "/" +:+ join (y :: a)).
    now rewrite !app_assoc.
Qed.

Lemma clean_step_proper rt out e : proper e -> clean_step rt out e = e :: out.
Proof.
  intros (H1 & H2 & H3 & _). unfold clean_step.
  apply eqb_false_iff in H1, H2, H3. now rewrite H1, H2, H3.
Qed.

Lemma clean_fold_proper rt cs out :
  Forall proper cs -> fold_left (clean_step rt) cs out = rev cs ++ out.
Proof.
  revert out; induction cs as [|e cs IH]; intros out H; [reflexivity|].
  inversion H; subst. simpl. rewrite clean_step_proper by assumption.
  rewrite IH by assumption. now rewrite <- List.app_assoc.
Qed.

Lemma clean_step_written rt out e :
  has_slash e = false -> Forall written out -> Forall written (clean_step rt out e).
Proof.
  intros He Hout. unfold clean_step.
  destruct (String.eqb_spec e ""); [assumption|].
  destruct (String.eqb_spec e "."); [assumption|].
  destruct (String.eqb_spec e "..") as [->|].
  - destruct out as [|top rest].
    + destruct rt; repeat constructor; discriminate.
    + destruct (String.eqb top "..").
      * constructor; [|assumption]. repeat split; discriminate.
      * now inversion Hout.
  - constructor; [|assumption]. now repeat split.
Qed.


Lemma clean_fold_written rt es out :
  Forall (fun e => has_slash e = false) es -> Forall written out ->
  Forall written (fold_left (clean_step rt) es out).
Proof.
  revert out; induction es as [|e es IH]; intros out Hes Hout; [assumption|].
  inversion Hes; subst. simpl. apply IH; [assumption|].
  now apply clean_step_written.
Qed.


Lemma join_written l :
  Forall written l -> l <> [] -> join l <> "" /\ join l <> "." /\ join l <> "/".
Proof.
  intros H Hne. destruct l as [|a l]; [congruence|].
  inversion H as [|? ? (Ha1 & Ha2 & Ha3) _]; subst.
  destruct l as [|b l].
  - simpl. repeat split; try assumption. intros ->. discriminate.
  - change (join (a :: b :: l)) with (a +:+ "/" +:+ join (b :: l)).
    destruct a as [|c a]; [congruence|]. rewrite app_cons.
    repeat split; try discriminate;
      intros E; injection E as _ E; destruct a; discriminate.
Qed.


(** A rooted path of proper elements, joined under a namespace, is the
    cleaned namespace with these elements below it. *)
Lemma Join_under ns cs :
  ns <> "" -> Forall proper cs ->
  Join [ns; "/" +:+ join cs] = under (Clean ns) cs.
Proof.
  intros Hns Hcs.
  assert (Hslash : Forall (fun e => has_slash e = false) cs).
  { eapply Forall_impl; [exact Hcs|]. now intros e (_ & _ & _ & H). }
  destruct ns as [|c ns]; [congruence|].
  set (n := String c ns) in *.
  set (rt := rooted n).
  set (out0 := clean_elems rt (split n)).
  assert (Hclean : Clean n = render rt out0) by reflexivity.
  assert (Hout0 : Forall written out0).
  { apply clean_fold_written; [apply split_no_slash|constructor]. }
  assert (Hjoin : Join [n; "/" +:+ join cs]
                  = render rt (fold_left (clean_step rt) (split (join cs)) out0)).
  { change (Join [n; "/" +:+ join cs])
      with (render rt (clean_elems rt (split (n +:+ "/" +:+ "/" +:+ join cs)))).
    unfold clean_elems. rewrite split_app, fold_left_app.
    fold (clean_elems rt (split n)). fold out0. reflexivity. }
  rewrite Hjoin, Hclean. clear Hjoin Hclean.
  destruct cs as [|e cs]; [reflexivity|].
  rewrite split_join by (assumption || discriminate).
  rewrite clean_fold_proper by assumption.
  unfold under, render. rewrite rev_app_distr, rev_involutive.
  destruct out0 as [|o out0].
  - destruct rt; [reflexivity|].
    destruct (rev (e :: cs)) eqn:E; [|reflexivity].
    apply (f_equal (@rev string)) in E. rewrite rev_involutive in E. discriminate.
  - assert (Hrev : Forall written (rev (o :: out0))) by now apply Forall_rev.
    assert (Hnn : rev (o :: out0) <> []).
    { intros E. apply (f_equal (@rev string)) in E.
      rewrite rev_involutive in E. discriminate. }
    destruct (join_written _ Hrev Hnn) as (J1 & J2 & J3).
    rewrite join_app by (assumption || discriminate).
    destruct rt.
    + destruct (String.eqb_spec ("/" +:+ join (rev (o :: out0))) "/") as [E|_].
      { exfalso. apply J1. change "/" with ("/" +:+ "") in E at 2.
        rewrite !app_cons, !app_empty_l in E. now injection E. }
      change (String.eqb ("/" +:+ join (rev (o :: out0))) ".") with false.
      cbv iota. now rewrite !app_assoc.
    + destruct (rev (e :: cs) ++ o :: out0) eqn:E.
      { destruct (rev (e :: cs)); discriminate. }
      apply eqb_false_iff in J2, J3. rewrite J2, J3. now rewrite app_assoc.
Qed.





End GoPathFacts.

(** * Namespace prefixing *)

Section Prefixing.
Import GoStrings GoStringsFacts GoPath GoPathFacts Subtree.

Lemma TrimPrefix_slash_fixed key :
  TrimPrefix key "/" = key <-> HasPrefix key "/" = false.
Proof.
  unfold TrimPrefix, HasPrefix.
  destruct (strip "/" key) as [r|] eqn:E; [|tauto].
  split; [|discriminate]. intros ->.
  apply strip_Some in E. apply (f_equal String.length) in E.
  rewrite app_cons, app_empty_l in E. simpl in E. lia.
Qed.

(** C8, as the code has it: with a non-empty prefix [p], [stripPrefix] takes
    [p] and one following separator (if there is one) off a key that starts
    with [p]; from a key that does not start with [p] it takes one leading
    separator off, so that such a key comes back unchanged exactly when it
    does not begin with a separator. *)
Theorem stripPrefix_trims (b : bfss3.bucket) (key rest : string) :
  bfss3.Prefix (bfss3.config b) <> "" ->
  HasPrefix key (bfss3.Prefix (bfss3.config b)) = false ->
  bfss3.stripPrefix b (bfss3.Prefix (bfss3.config b) +:+ rest)
    = TrimPrefix rest "/"
  /\ bfss3.stripPrefix b key = TrimPrefix key "/"
  /\ (bfss3.stripPrefix b key = key <-> HasPrefix key "/" = false).
Proof.
  intros Hp Hk. unfold bfss3.stripPrefix.
  apply eqb_false_iff in Hp. rewrite Hp.
  rewrite TrimPrefix_app, (TrimPrefix_no_prefix _ _ Hk).
  repeat split; try apply TrimPrefix_slash_fixed; auto.
Qed.

Lemma stripPrefix_trims_witness :
  bfss3.stripPrefix bucket_x ("x/" +:+ "a/b.txt") = "a/b.txt"
  /\ bfss3.stripPrefix bucket_x "y/c.txt" = "y/c.txt"
  /\ (bfss3.stripPrefix bucket_x "y/c.txt" = "y/c.txt"
      <-> HasPrefix "y/c.txt" "/" = false).
Proof.
  apply (stripPrefix_trims bucket_x "y/c.txt" "a/b.txt").
  - discriminate.
  - reflexivity.
Defined.

(** C8, as the spec words it, fails: a key that does not start with the
    prefix but begins with a separator loses that separator. *)
Lemma stripPrefix_not_unchanged :
  ~ (forall (b : bfss3.bucket) (key : string),
        bfss3.Prefix (bfss3.config b) <> "" ->
        HasPrefix key (bfss3.Prefix (bfss3.config b)) = false ->
        bfss3.stripPrefix b key = key).
Proof.
  intros H. specialize (H bucket_x "/y").
  assert (E : bfss3.stripPrefix bucket_x "/y" = "y") by reflexivity.
  rewrite E in H. discriminate H; [discriminate|reflexivity].
Qed.

End Prefixing.

(** * The shape of a normalised prefix *)

Section PrefixShape.
Import GoStrings GoStringsFacts GoPathFacts.

Lemma length_app a b :
  String.length (a +:+ b) = (String.length a + String.length b)%nat.
Proof.
  induction a as [|c a IH]; [reflexivity|].
  rewrite app_cons. simpl. now rewrite IH.
Qed.

Lemma substring_last p :
  String.substring (String.length p) 1 (p +:+ "/") = "/".
Proof.
  induction p as [|c p IH]; [reflexivity|].
  rewrite app_cons. simpl. exact IH.
Qed.

Lemma HasSuffix_slash p : HasSuffix (p +:+ "/") "/" = true.
Proof.
  unfold HasSuffix. rewrite length_app. simpl String.length.
  replace (String.length p + 1 - 1)%nat with (String.length p) by lia.
  rewrite substring_last.
  destruct (Nat.leb_spec 1 (String.length p + 1)); [reflexivity|lia].
Qed.

Lemma TrimPrefix_slash_empty s : TrimPrefix s "/" = "" <-> s = "" \/ s = "/".
Proof.
  unfold TrimPrefix. destruct s as [|c s]; [simpl; tauto|].
  change (strip "/" (String c s)) with (if Ascii.eqb "/" c then Some s else None).
  destruct (Ascii.eqb_spec "/" c) as [<-|Hc].
  - split; [intros ->; now right|]. intros [H|H]; [discriminate|now injection H].
  - split; [discriminate|]. intros [H|H]; [discriminate|].
    injection H as H1 H2. congruence.
Qed.

Lemma norm_prefix (p0 : string) :
  let t := TrimPrefix p0 "/" in
  let p := if negb (String.eqb t "") && negb (HasSuffix t "/") then t +:+ "/" else t in
  (p = "" <-> p0 = "" \/ p0 = "/") /\ (p <> "" -> HasSuffix p "/" = true).
Proof.
  intros t p. subst p. destruct (String.eqb_spec t "") as [E|E]; simpl.
  - split; [now rewrite <- TrimPrefix_slash_empty|congruence].
  - destruct (HasSuffix t "/") eqn:S; simpl.
    + split; [|auto]. rewrite <- TrimPrefix_slash_empty. fold t. tauto.
    + split; [|intros _; apply HasSuffix_slash].
      rewrite <- TrimPrefix_slash_empty. fold t. split; [|tauto].
      destruct t; [congruence|discriminate].
Qed.

End PrefixShape.

(** * Every backend call stays inside the prefix *)

Section Isolation.
Import GoPath GoPathFacts Subtree Scope.

Context {W R I : Type}.
Variable api : s3.API W R.
Variable fs : os.API W.
Variable gapi : bfsgs.API W I.
Variable Match : string -> string -> bool * option error.
Variable NormMetadata : gmap string string -> gmap string string.

Lemma emits_ret P {A} (a : A) (st : St W) : emits P st (snd (ret a st)).
Proof. exists []. split; [now rewrite app_nil_r|constructor]. Qed.

Lemma emits_call P {A} c (f : W -> A * W) (st : St W) :
  P c -> emits P st (snd (call c f st)).
Proof.
  intros Hc. unfold call. destruct (f (world st)) as [a w'].
  exists [c]. split; [reflexivity|now constructor].
Qed.

Lemma emits_bind P {A B} (m : M W A) (k : A -> M W B) (st : St W) :
  emits P st (snd (m st)) ->
  (forall a st1, emits P st1 (snd (k a st1))) ->
  emits P st (snd (bind m k st)).
Proof.
  intros (l1 & E1 & H1) Hk. unfold bind.
  destruct (m st) as [a st1]. simpl in E1.
  destruct (Hk a st1) as (l2 & E2 & H2).
  exists (l1 ++ l2). split.
  - now rewrite E2, E1, List.app_assoc.
  - now apply Forall_app.
Qed.




Ltac scope_step :=
  first
    [ apply emits_ret
    | apply emits_call
    | apply emits_bind; [|intros ? ?] ].

















End Isolation.


(** What the keys look like for the prefix [x/]: every one of them starts
    with [x/]. *)
Example withPrefix_table :
  map (bfss3.withPrefix bucket_x)
    ["a/b.txt"; "../y"; "../../etc/passwd"; "a/../../b"; "/abs"; "./a//b/"; ""; ".."]
  = ["x/a/b.txt"; "x/y"; "x/etc/passwd"; "x/b"; "x/abs"; "x/a/b"; "x/"; "x/"].
Proof. reflexivity. Qed.

(** The local bucket resolves a name under its root directory. *)
Example resolve_table :
  map (bfsos.resolve (bfsos.New "/tmp/data"))
    ["a/b.txt"; "../y"; "../../etc/passwd"; "/abs"; ""; ".."]
  = ["/tmp/data/a/b.txt"; "/tmp/data/y"; "/tmp/data/etc/passwd"; "/tmp/data/abs";
     "/tmp/data"; "/tmp/data"].
Proof. reflexivity. Qed.

(** * Error normalisation *)

Section Errors.

Context {W R : Type}.
Variable api : s3.API W R.
Variable fs : os.API W.
Variable NormMetadata : gmap string string -> gmap string string.

(** X3: the mapping of [normError]: a request failure with status 404 and the
    code [NoSuchKey] become [ErrNotFound], the code [RequestCanceled]
    becomes [context.Canceled], everything else passes through. *)
Lemma normError_mapping :
  (forall code, bfss3.normError (Some (RequestFailure code 404)) = Some ErrNotFound)
  /\ bfss3.normError (Some (AwsError "NoSuchKey")) = Some ErrNotFound
  /\ bfss3.normError (Some (AwsError "RequestCanceled")) = Some Canceled
  /\ bfss3.normError None = None
  /\ (forall code status, status <> 404 ->
        bfss3.normError (Some (RequestFailure code status))
        = Some (RequestFailure code status))
  /\ (forall code, code <> "NoSuchKey" -> code <> "RequestCanceled" ->
        bfss3.normError (Some (AwsError code)) = Some (AwsError code))
  /\ (forall e, (forall c s, e <> RequestFailure c s) -> (forall c, e <> AwsError c) ->
        bfss3.normError (Some e) = Some e).
Proof.
  repeat apply conj; try reflexivity.
  - intros code status H. simpl. unfold s3.StatusNotFound.
    destruct (Z.eqb_spec status 404); congruence.
  - intros code H1 H2. simpl. unfold s3.ErrCodeNoSuchKey, s3.CanceledErrorCode.
    apply GoPathFacts.eqb_false_iff in H1, H2. now rewrite H1, H2.
  - intros e H1 H2. destruct e; try reflexivity.
    + exfalso. now apply (H1 code status).
    + exfalso. now apply (H2 code).
Qed.

(** [Head], [Open] and [Remove] return what the backend reports through
    [normError]. *)
Lemma Head_normalises b nm (st : St W) e w' :
  s3.HeadObjectWithContext api (bfss3.name b) (bfss3.withPrefix b nm) (world st)
  = (inr e, w') ->
  fst (bfss3.Head api NormMetadata b nm st) = (None, bfss3.normError (Some e)).
Proof. intros H. unfold bfss3.Head, bind, call. now rewrite H. Qed.

Lemma Open_normalises b nm (st : St W) e w' :
  s3.GetObjectWithContext api (bfss3.name b) (bfss3.withPrefix b nm) (world st)
  = (inr e, w') ->
  fst (bfss3.Open api b nm st) = (None, bfss3.normError (Some e)).
Proof. intros H. unfold bfss3.Open, bind, call. now rewrite H. Qed.

Lemma Remove_normalises b nm (st : St W) :
  fst (bfss3.Remove api b nm st)
  = bfss3.normError
      (fst (s3.DeleteObjectWithContext api (bfss3.name b) (bfss3.withPrefix b nm)
              (world st))).
Proof.
  unfold bfss3.Remove, bind, call.
  now destruct (s3.DeleteObjectWithContext _ _ _ _).
Qed.

(** [Copy] returns what the backend reports as it is. *)
Lemma Copy_passes_through b src dst (st : St W) :
  fst (bfss3.Copy api b src dst st)
  = fst (s3.CopyObjectWithContext api
           {| s3.CopyBucket := bfss3.name b;
              s3.CopySource :=
                GoPath.Join ["/"; bfss3.name b; bfss3.withPrefix b src];
              s3.CopyKey := bfss3.withPrefix b dst;
              s3.CopyACL := bfss3.strPresence (bfss3.ACL (bfss3.config b));
              s3.CopyGrantFullControl :=
                bfss3.strPresence (bfss3.GrantFullControl (bfss3.config b));
              s3.CopyServerSideEncryption :=
                bfss3.strPresence (bfss3.SSE (bfss3.config b)) |}
           (world st)).
Proof.
  unfold bfss3.Copy, bind, call.
  now destruct (s3.CopyObjectWithContext _ _ _).
Qed.

End Errors.

(** C6 at the failing input: on a store without the object [missing],
    [Head], [Open] answer [ErrNotFound], and [Copy] answers the
    backend's own 404 failure, which [normError] would have turned into
    [ErrNotFound]. *)
Theorem Copy_not_normalised :
  snd (fst (bfss3.Head Mem.api id bucket_x "missing" Mem.start)) = Some ErrNotFound
  /\ snd (fst (bfss3.Open Mem.api bucket_x "missing" Mem.start)) = Some ErrNotFound
  /\ fst (bfss3.Copy Mem.api bucket_x "missing" "dst" Mem.start)
     = Some (RequestFailure "NoSuchKey" 404)
  /\ fst (bfss3.Copy Mem.api bucket_x "missing" "dst" Mem.start) <> Some ErrNotFound
  /\ bfss3.normError (fst (bfss3.Copy Mem.api bucket_x "missing" "dst" Mem.start))
     = Some ErrNotFound.
Proof. repeat apply conj; try reflexivity. discriminate. Qed.

(** * Removing an object *)

Section Removal.
Import Runs.

Context {W R I : Type}.
Variable api : s3.API W R.
Variable gapi : bfsgs.API W I.
Variable fs : os.API W.
Variable present : W -> string -> bool.

Lemma s3_Remove_run b nm (st : St W) :
  bfss3.Remove api b nm st
  = (bfss3.normError
       (fst (s3.DeleteObjectWithContext api (bfss3.name b) (bfss3.withPrefix b nm)
               (world st))),
     mkSt (snd (s3.DeleteObjectWithContext api (bfss3.name b)
                  (bfss3.withPrefix b nm) (world st)))
       (calls st ++ [CallDeleteObject (bfss3.name b) (bfss3.withPrefix b nm)])).
Proof.
  unfold bfss3.Remove, bind, call.
  now destruct (s3.DeleteObjectWithContext _ _ _ _).
Qed.

Lemma normError_nil e : bfss3.normError e = None -> e = None.
Proof.
  destruct e as [[]|]; simpl; try discriminate; [| |reflexivity].
  - destruct (_ =? _); discriminate.
  - destruct (String.eqb _ _); [discriminate|].
    destruct (String.eqb _ _); discriminate.
Qed.

Lemma s3_Remove_absent b nm (st : St W) :
  s3_delete_contract api present ->
  present (world st) (bfss3.withPrefix b nm) = false ->
  fst (bfss3.Remove api b nm st) = None
  /\ present (world (snd (bfss3.Remove api b nm st))) (bfss3.withPrefix b nm) = false.
Proof.
  intros C Habs. rewrite s3_Remove_run. simpl.
  destruct (C (bfss3.name b) (bfss3.withPrefix b nm) (world st)) as (C1 & C2).
  rewrite (C1 Habs). split; [reflexivity|]. apply C2, C1, Habs.
Qed.

Lemma s3_Remove_again b nm (st : St W) :
  s3_delete_contract api present ->
  fst (bfss3.Remove api b nm st) = None ->
  fst (bfss3.Remove api b nm (snd (bfss3.Remove api b nm st))) = None.
Proof.
  intros C H. apply s3_Remove_absent; [assumption|].
  rewrite s3_Remove_run in *. simpl in *.
  apply normError_nil in H.
  now apply (C (bfss3.name b) (bfss3.withPrefix b nm) (world st)).
Qed.

Lemma gs_Remove_absent g nm (st : St W) :
  gs_delete_contract gapi present ->
  present (world st) (bfsgs.withPrefix g nm) = false ->
  fst (bfsgs.Remove gapi g nm st) = None
  /\ world (snd (bfsgs.Remove gapi g nm st)) = world st.
Proof.
  intros C Habs. unfold bfsgs.Remove, bind, call.
  destruct (C (bfsgs.withPrefix g nm) (world st)) as (C1 & _).
  rewrite (C1 Habs). now split.
Qed.

Lemma gs_Remove_run g nm (st : St W) :
  world (snd (bfsgs.Remove gapi g nm st))
  = snd (bfsgs.Delete gapi (bfsgs.withPrefix g nm) (world st)).
Proof.
  unfold bfsgs.Remove, bind, call.
  destruct (bfsgs.Delete gapi _ _) as [[[]|] w']; reflexivity.
Qed.

Lemma gs_Remove_nil g nm (st : St W) :
  fst (bfsgs.Remove gapi g nm st) = None ->
  fst (bfsgs.Delete gapi (bfsgs.withPrefix g nm) (world st)) = None
  \/ fst (bfsgs.Delete gapi (bfsgs.withPrefix g nm) (world st))
     = Some ErrObjectNotExist.
Proof.
  unfold bfsgs.Remove, bind, call.
  destruct (bfsgs.Delete gapi _ _) as [[[]|] w']; simpl; auto; discriminate.
Qed.

Lemma gs_Remove_again g nm (st : St W) :
  gs_delete_contract gapi present ->
  fst (bfsgs.Remove gapi g nm st) = None ->
  fst (bfsgs.Remove gapi g nm (snd (bfsgs.Remove gapi g nm st))) = None.
Proof.
  intros C H. apply gs_Remove_absent; [assumption|].
  rewrite gs_Remove_run. apply C. now apply gs_Remove_nil.
Qed.

(** Where the store itself deletes an absent key without complaint,
    removing an object that is already absent succeeds, and so does a
    second [Remove] after one that succeeded.  The Google Cloud Storage
    adapter turns the backend's [ErrObjectNotExist] into success itself;
    the S3 adapter returns what [DeleteObject] reports. *)
Theorem Remove_idempotent (b : bfss3.bucket) (g : bfsgs.gsBucket) (nm : string)
    (st : St W) :
  s3_delete_contract api present ->
  gs_delete_contract gapi present ->
  (present (world st) (bfss3.withPrefix b nm) = false ->
   fst (bfss3.Remove api b nm st) = None)
  /\ (fst (bfss3.Remove api b nm st) = None ->
      fst (bfss3.Remove api b nm (snd (bfss3.Remove api b nm st))) = None)
  /\ (present (world st) (bfsgs.withPrefix g nm) = false ->
      fst (bfsgs.Remove gapi g nm st) = None)
  /\ (fst (bfsgs.Remove gapi g nm st) = None ->
      fst (bfsgs.Remove gapi g nm (snd (bfsgs.Remove gapi g nm st))) = None)
  /\ (forall w', bfsgs.Delete gapi (bfsgs.withPrefix g nm) (world st)
                  = (Some ErrObjectNotExist, w') ->
      fst (bfsgs.Remove gapi g nm st) = None).
Proof.
  intros CS CG. repeat apply conj.
  - intros H. now apply s3_Remove_absent.
  - now apply s3_Remove_again.
  - intros H. now apply gs_Remove_absent.
  - now apply gs_Remove_again.
  - intros w' H. unfold bfsgs.Remove, bind, call. now rewrite H.
Qed.

End Removal.

Lemma mem_s3_delete : Runs.s3_delete_contract Mem.api mem_present.
Proof.
  intros bkt k w. split; [reflexivity|]. intros _. simpl.
  unfold mem_present. simpl. rewrite lookup_delete_eq.
  apply bool_decide_eq_false. now intros [x Hx].
Qed.

Lemma mem_gs_delete : Runs.gs_delete_contract Mem.gapi mem_present.
Proof.
  intros k w. unfold mem_present. simpl. unfold Mem.gsDelete. split.
  - intros H. apply bool_decide_eq_false in H.
    destruct (Mem.objects w !! k) eqn:E; [|reflexivity].
    exfalso. apply H. now exists z.
  - destruct (Mem.objects w !! k) eqn:E; simpl.
    + intros _. rewrite lookup_delete_eq.
      apply bool_decide_eq_false. now intros [x Hx].
    + intros _. rewrite E. apply bool_decide_eq_false. now intros [x Hx].
Qed.

Lemma Remove_idempotent_witness :
  fst (bfss3.Remove Mem.api bucket_x "a.txt"
         (snd (bfss3.Remove Mem.api bucket_x "a.txt" store_one))) = None
  /\ fst (bfsgs.Remove Mem.gapi gs_bucket_x "a.txt"
            (snd (bfsgs.Remove Mem.gapi gs_bucket_x "a.txt" store_one))) = None
  /\ fst (bfsgs.Remove Mem.gapi gs_bucket_x "never.txt" store_one) = None.
Proof.
  destruct (Remove_idempotent Mem.api Mem.gapi mem_present bucket_x gs_bucket_x
              "a.txt" store_one mem_s3_delete mem_gs_delete)
    as (_ & H2 & _ & H4 & _).
  destruct (Remove_idempotent Mem.api Mem.gapi mem_present bucket_x gs_bucket_x
              "never.txt" store_one mem_s3_delete mem_gs_delete)
    as (_ & _ & H3 & _).
  split; [apply H2; reflexivity|].
  split; [apply H4; reflexivity|apply H3; reflexivity].
Defined.


(** * Glob checks the pattern first *)

Section Validation.
Import GoPathFacts doublestar.

Context {W : Type}.






End Validation.


Example Glob_unbalanced_bracket :
  bfss3.Glob Mem.matcher bucket_x "a/[bc" store_one
  = ((None, Some ErrBadPattern), store_one).
Proof. reflexivity. Qed.

(** * The sized reader *)

Section Reader.
Import Runs.

Context {R : Type}.
Variable BodyRead : R -> Z -> (Z * option error) * R.

Lemma wrap64_small z : - 2 ^ 63 <= z < 2 ^ 63 -> wrap64 z = z.
Proof. intros H. unfold wrap64. rewrite Z.mod_small; lia. Qed.

Lemma Read_exhausted (r : bfss3.response R) lenp :
  bfss3.ContentLength r <= 0 -> bfss3.Read BodyRead r lenp = ((0, Some EOF), r).
Proof.
  intros H. unfold bfss3.Read.
  destruct (Z.leb_spec (bfss3.ContentLength r) 0); [reflexivity|lia].
Qed.

Lemma Read_step (r : bfss3.response R) lenp :
  reader_contract BodyRead ->
  - 2 ^ 63 <= bfss3.ContentLength r < 2 ^ 63 ->
  0 <= lenp ->
  let out := bfss3.Read BodyRead r lenp in
  0 <= fst (fst out) <= Z.max 0 (bfss3.ContentLength r)
  /\ fst (fst out) <= lenp
  /\ bfss3.ContentLength (snd out) = bfss3.ContentLength r - fst (fst out).
Proof.
  intros C Hr Hl. unfold bfss3.Read.
  destruct (Z.leb_spec (bfss3.ContentLength r) 0) as [H|H]; simpl; [lia|].
  set (l := if lenp >? bfss3.ContentLength r then bfss3.ContentLength r else lenp).
  assert (Hl' : 0 <= l /\ l <= lenp /\ l <= bfss3.ContentLength r).
  { unfold l. destruct (Z.gtb_spec lenp (bfss3.ContentLength r)); lia. }
  specialize (C (bfss3.ReadCloser r) l (proj1 Hl')).
  destruct (BodyRead (bfss3.ReadCloser r) l) as [[n e] body]. simpl in *.
  rewrite wrap64_small by lia. lia.
Qed.

Lemma reads_bound (r : bfss3.response R) sizes :
  reader_contract BodyRead ->
  - 2 ^ 63 <= bfss3.ContentLength r < 2 ^ 63 ->
  0 <= delivered (fst (reads BodyRead r sizes)) <= Z.max 0 (bfss3.ContentLength r)
  /\ bfss3.ContentLength (snd (reads BodyRead r sizes))
     = bfss3.ContentLength r - delivered (fst (reads BodyRead r sizes)).
Proof.
  intros C. revert r. induction sizes as [|s sizes IH]; intros r Hr.
  - simpl. unfold delivered. simpl. lia.
  - simpl.
    pose proof (Read_step r (Z.of_nat s) C Hr (Zle_0_nat s)) as (H1 & H2 & H3).
    destruct (bfss3.Read BodyRead r (Z.of_nat s)) as [o r1]. simpl in *.
    assert (Hr1 : - 2 ^ 63 <= bfss3.ContentLength r1 < 2 ^ 63) by lia.
    specialize (IH r1 Hr1).
    destruct (reads BodyRead r1 sizes) as [os r2]. simpl in *.
    unfold delivered in *. simpl. lia.
Qed.

(** C4: over any run of [Read] calls the bytes delivered stay within the
    declared length (nothing is delivered when it is not positive); what is
    left of the length is the declared length less the bytes delivered;
    once the declared length is used up every [Read] answers [(0, EOF)]
    and leaves the transport alone; and a read that takes the last bytes
    while the transport reports [EOF] returns them without an error. *)
Theorem Read_within_length (r : bfss3.response R) (sizes : list nat) :
  reader_contract BodyRead ->
  - 2 ^ 63 <= bfss3.ContentLength r < 2 ^ 63 ->
  0 <= delivered (fst (reads BodyRead r sizes)) <= Z.max 0 (bfss3.ContentLength r)
  /\ bfss3.ContentLength (snd (reads BodyRead r sizes))
     = bfss3.ContentLength r - delivered (fst (reads BodyRead r sizes))
  /\ (bfss3.ContentLength r <= delivered (fst (reads BodyRead r sizes)) ->
      forall lenp,
        bfss3.Read BodyRead (snd (reads BodyRead r sizes)) lenp
        = ((0, Some EOF), snd (reads BodyRead r sizes)))
  /\ (forall lenp n body,
        0 < bfss3.ContentLength r ->
        BodyRead (bfss3.ReadCloser r) (Z.min lenp (bfss3.ContentLength r))
        = ((n, Some EOF), body) ->
        n = bfss3.ContentLength r ->
        fst (bfss3.Read BodyRead r lenp) = (n, None)).
Proof.
  intros C Hr. destruct (reads_bound r sizes C Hr) as (H1 & H2).
  repeat apply conj; try assumption; try lia.
  - intros H lenp. apply Read_exhausted. lia.
  - intros lenp n body Hpos Hb Hn. unfold bfss3.Read.
    destruct (Z.leb_spec (bfss3.ContentLength r) 0); [lia|].
    replace (if lenp >? bfss3.ContentLength r then bfss3.ContentLength r else lenp)
      with (Z.min lenp (bfss3.ContentLength r))
      by (destruct (Z.gtb_spec lenp (bfss3.ContentLength r)); lia).
    rewrite Hb. simpl.
    destruct (Z.gtb_spec n 0); [|lia].
    destruct (Z.eqb_spec n (bfss3.ContentLength r)); [reflexivity|lia].
Qed.

End Reader.

Lemma mem_reader_contract : Runs.reader_contract Mem.bodyRead.
Proof. intros s l Hl. unfold Mem.bodyRead. simpl. lia. Qed.

Example short_response_reads :
  fst (Runs.reads Mem.bodyRead short_response [3; 3; 3]%nat)
  = [(3, None); (1, None); (0, Some EOF)].
Proof. reflexivity. Qed.

Lemma Read_within_length_witness :
  0 <= Runs.delivered (fst (Runs.reads Mem.bodyRead short_response [3; 3; 3]%nat))
    <= Z.max 0 4
  /\ forall lenp,
       bfss3.Read Mem.bodyRead
         (snd (Runs.reads Mem.bodyRead short_response [3; 3; 3]%nat)) lenp
       = ((0, Some EOF),
          snd (Runs.reads Mem.bodyRead short_response [3; 3; 3]%nat)).
Proof.
  destruct (Read_within_length Mem.bodyRead short_response [3; 3; 3]%nat
              mem_reader_contract) as (H1 & _ & H3 & _).
  - simpl. lia.
  - split; [exact H1|]. apply H3. vm_compute. discriminate.
Defined.

(** * The iterator *)

Section Iterator.
Import Runs.

Context {W R I : Type}.
Variable api : s3.API W R.
Variable gapi : bfsgs.API W I.
Variable Match : string -> string -> bool * option error.

Lemma fetchNextPage_err (i : bfss3.iterator) (st : St W) :
  bfss3.err (snd (fst (bfss3.fetchNextPage api Match i st))) = bfss3.err i.
Proof.
  unfold bfss3.fetchNextPage, bind, call.
  destruct (s3.ListObjectsV2WithContext _ _ _ _ _) as [[res|e] w'].
  - now destruct (bfss3.matchContents _ _ _ _ _).
  - reflexivity.
Qed.

(** An iterator that holds an error answers [false] and touches nothing. *)
Lemma Next_after_error fuel (i : bfss3.iterator) (st : St W) e :
  bfss3.err i = Some e ->
  bfss3.Next api Match fuel i st = ((Some false, i), st).
Proof. intros H. destruct fuel; simpl; now rewrite H. Qed.

Lemma NextTimes_after_error k fuel (i : bfss3.iterator) (st : St W) e :
  bfss3.err i = Some e ->
  NextTimes api Match k fuel i st = (repeat (Some false) k, i, st).
Proof.
  intros H. induction k as [|k IH]; [reflexivity|].
  simpl. rewrite (Next_after_error _ _ _ _ H), IH. reflexivity.
Qed.

(** A call of [Next] that leaves an error in the iterator answered [false]. *)
Lemma Next_error_false fuel (i : bfss3.iterator) (st : St W) e :
  bfss3.err (snd (fst (bfss3.Next api Match fuel i st))) = Some e ->
  fst (fst (bfss3.Next api Match fuel i st)) = Some false.
Proof.
  revert i st; induction fuel as [|fuel IH]; intros i st; simpl;
    (destruct (bfss3.err i) eqn:Ei; [reflexivity|]);
    (destruct (_ <? _); [simpl; congruence|]);
    (destruct (bfss3.last _); [simpl; congruence|]);
    unfold bind;
    pose proof (fetchNextPage_err (bfss3.advance i) st) as Hf;
    destruct (bfss3.fetchNextPage api Match (bfss3.advance i) st)
      as [[e' i2] st2];
    simpl in *; (destruct e' as [e'|]; [reflexivity|]).
  - simpl. congruence.
  - apply IH.
Qed.

(** An error of the page fetch is recorded, with the answer [false]. *)
Lemma Next_records_error fuel (i : bfss3.iterator) (st : St W) e i2 st2 :
  bfss3.err i = None ->
  (bfss3.pos (bfss3.advance i) <? len (bfss3.page i)) = false ->
  bfss3.last i = false ->
  bfss3.fetchNextPage api Match (bfss3.advance i) st = ((Some e, i2), st2) ->
  bfss3.Next api Match fuel i st = ((Some false, bfss3.setErr e i2), st2).
Proof.
  intros H1 H2 H3 H4. destruct fuel; simpl; rewrite H1; simpl in *;
    rewrite H2, H3; unfold bind; rewrite H4; reflexivity.
Qed.

(** [fetchNextPage] fails with the error of the listing, or with the error
    of the first match that fails. *)
Lemma fetchNextPage_errors (i : bfss3.iterator) (st : St W) :
  match s3.ListObjectsV2WithContext api (bfss3.name (bfss3.parent i))
          (bfss3.Prefix (bfss3.config (bfss3.parent i))) (bfss3.token i)
          (world st) with
  | (inr e, _) => fst (fst (bfss3.fetchNextPage api Match i st)) = Some e
  | (inl res, _) =>
      fst (fst (bfss3.fetchNextPage api Match i st))
      = fst (bfss3.matchContents Match (bfss3.parent i) (bfss3.pattern i)
               (s3.Contents res) [])
  end.
Proof.
  unfold bfss3.fetchNextPage, bind, call.
  destruct (s3.ListObjectsV2WithContext _ _ _ _ _) as [[res|e] w'].
  - now destruct (bfss3.matchContents _ _ _ _ _).
  - reflexivity.
Qed.

Lemma gs_Next_after_error fuel (i : bfsgs.iterator I) (st : St W) e :
  bfsgs.err i = Some e ->
  bfsgs.Next gapi Match fuel i st = ((Some false, i), st).
Proof. intros H. unfold bfsgs.Next. now rewrite H. Qed.

Lemma gs_nextLoop_error_false fuel (i : bfsgs.iterator I) (st : St W) e :
  bfsgs.err i = None ->
  bfsgs.err (snd (fst (bfsgs.nextLoop gapi Match fuel i st))) = Some e ->
  fst (fst (bfsgs.nextLoop gapi Match fuel i st)) = Some false.
Proof.
  revert i st; induction fuel as [|fuel IH]; intros i st Hi; simpl;
    unfold bind, call;
    destruct (bfsgs.IterNext gapi (bfsgs.iter i) (world st)) as [[[obj|e'] it] w'];
    simpl; try reflexivity;
    (destruct (Match _ _) as [[|] [e'|]]; simpl; try reflexivity; try congruence).
  apply IH. exact Hi.
Qed.

(** C5: errors are sticky.  A call of [Next] that leaves an error recorded
    -- from the page fetch, from a match, or from before -- answered
    [false]; from then on every [Next] answers [false] and leaves the
    iterator, the world and the log of backend calls as they are, so no page
    is fetched again; and [Error] returns the recorded error.  The Google
    Cloud Storage iterator does the same (its [Error] hides the end marker
    [iterator.Done], which is not a failure). *)
Theorem errors_are_sticky (fuel : nat) (i : bfss3.iterator)
    (gi : bfsgs.iterator I) (st : St W) (e : error) :
  (bfss3.err (snd (fst (bfss3.Next api Match fuel i st))) = Some e ->
   fst (fst (bfss3.Next api Match fuel i st)) = Some false
   /\ (forall k fuel',
         NextTimes api Match k fuel' (snd (fst (bfss3.Next api Match fuel i st)))
           (snd (bfss3.Next api Match fuel i st))
         = (repeat (Some false) k,
            snd (fst (bfss3.Next api Match fuel i st)),
            snd (bfss3.Next api Match fuel i st)))
   /\ bfss3.Error (snd (fst (bfss3.Next api Match fuel i st))) = Some e)
  /\ (bfsgs.err (snd (fst (bfsgs.Next gapi Match fuel gi st))) = Some e ->
      fst (fst (bfsgs.Next gapi Match fuel gi st)) = Some false
      /\ (forall fuel',
            bfsgs.Next gapi Match fuel'
              (snd (fst (bfsgs.Next gapi Match fuel gi st)))
              (snd (bfsgs.Next gapi Match fuel gi st))
            = ((Some false, snd (fst (bfsgs.Next gapi Match fuel gi st))),
               snd (bfsgs.Next gapi Match fuel gi st)))
      /\ (e <> Done ->
          bfsgs.Error (snd (fst (bfsgs.Next gapi Match fuel gi st))) = Some e)).
Proof.
  split.
  - intros H. split; [now apply (Next_error_false _ _ _ e)|]. split.
    + intros k fuel'. now apply (NextTimes_after_error _ _ _ _ e).
    + exact H.
  - intros H. split; [|split].
    + revert H. unfold bfsgs.Next. destruct (bfsgs.err gi) eqn:E; [reflexivity|].
      now apply gs_nextLoop_error_false.
    + intros fuel'. now apply (gs_Next_after_error _ _ _ e).
    + intros Hd. unfold bfsgs.Error. rewrite H. now destruct e.
Qed.

End Iterator.

Example Glob_fresh :
  bfss3.Glob Mem.matcher bucket_x "**" store_one
  = ((Some fresh_iterator, None), store_one).
Proof. reflexivity. Qed.

(** A listing that fails once is not asked for again. *)
Example offline_run :
  let r := bfss3.Next Mem.offline Mem.matcher 5 fresh_iterator store_one in
  fst (fst r) = Some false
  /\ bfss3.Error (snd (fst r)) = Some (OtherError "connection reset")
  /\ calls (snd r) = [CallListObjectsV2 "bkt" "x/" None]
  /\ Runs.NextTimes Mem.offline Mem.matcher 3 5 (snd (fst r)) (snd r)
     = ([Some false; Some false; Some false], snd (fst r), snd r).
Proof. repeat split. Qed.

(** A listing that succeeds: one object under the prefix. *)
Example online_run :
  let r := Runs.NextTimes Mem.api Mem.matcher 3 5 fresh_iterator store_one in
  fst (fst r) = [Some true; Some false; Some false]
  /\ calls (snd r) = [CallListObjectsV2 "bkt" "x/" None].
Proof. vm_compute. repeat split. Qed.

Section Closing.
Import Runs.

Context {W R : Type}.
Variable api : s3.API W R.
Variable Match : string -> string -> bool * option error.

Lemma len_nonneg {A} (l : list A) : 0 <= len l.
Proof. unfold len. lia. Qed.

(** Past the page of a last page, [Next] answers [false] and moves on. *)
Lemma Next_exhausted fuel (i : bfss3.iterator) (st : St W) :
  bfss3.last i = true ->
  len (bfss3.page i) <= bfss3.pos i ->
  bfss3.pos i + 1 < 2 ^ 63 ->
  exists i',
    bfss3.Next api Match fuel i st = ((Some false, i'), st)
    /\ bfss3.last i' = true
    /\ bfss3.page i' = bfss3.page i
    /\ (bfss3.pos i' = bfss3.pos i \/ bfss3.pos i' = bfss3.pos i + 1).
Proof.
  intros Hl Hp Hb. pose proof (len_nonneg (bfss3.page i)) as Hn.
  destruct (bfss3.err i) as [e|] eqn:E.
  - exists i. rewrite (Next_after_error api Match fuel i st e E). auto.
  - exists (bfss3.advance i).
    assert (Hw : wrap64 (bfss3.pos i + 1) = bfss3.pos i + 1)
      by (apply wrap64_small; lia).
    destruct fuel; simpl; rewrite E; simpl; rewrite Hw, Hl;
      (destruct (Z.ltb_spec (bfss3.pos i + 1) (len (bfss3.page i))); [lia|]);
      auto.
Qed.

Lemma NextTimes_exhausted k fuel (i : bfss3.iterator) (st : St W) :
  bfss3.last i = true ->
  len (bfss3.page i) <= bfss3.pos i ->
  bfss3.pos i + Z.of_nat k < 2 ^ 63 ->
  fst (fst (NextTimes api Match k fuel i st)) = repeat (Some false) k
  /\ snd (NextTimes api Match k fuel i st) = st.
Proof.
  revert i; induction k as [|k IH]; intros i Hl Hp Hb; [now split|].
  simpl NextTimes.
  destruct (Next_exhausted fuel i st Hl Hp ltac:(lia)) as (i' & -> & Hl' & Hpg & Hpos).
  destruct (IH i' Hl' ltac:(rewrite Hpg; lia) ltac:(lia)) as (H1 & H2).
  destruct (NextTimes api Match k fuel i' st) as [[rs i2] st2]. simpl in *.
  now subst.
Qed.

(** C9, as the code has it.  For the S3 iterator [Close] succeeds, and a
    second [Close] succeeds and leaves the iterator as the first left it;
    after [Close] every [Next] answers [false] and leaves the world and the
    log of backend calls as they are: no page is fetched.  (The bound keeps
    the position, which each [Next] still moves on, within Go's [int].)
    For the iterator of the Google Cloud Storage adapter [Close] succeeds as
    often as it is called and changes nothing; it does not exhaust the
    iterator. *)
Theorem Close_exhausts {I : Type} (i : bfss3.iterator) (gi : bfsgs.iterator I)
    (k fuel : nat) (st : St W) :
  len (bfss3.page i) + Z.of_nat k < 2 ^ 63 ->
  fst (bfss3.Close i) = None
  /\ bfss3.Close (snd (bfss3.Close i)) = (None, snd (bfss3.Close i))
  /\ fst (fst (NextTimes api Match k fuel (snd (bfss3.Close i)) st))
     = repeat (Some false) k
  /\ snd (NextTimes api Match k fuel (snd (bfss3.Close i)) st) = st
  /\ gsiter.Close gi = None.
Proof.
  intros Hb. split; [reflexivity|]. split; [reflexivity|].
  destruct (NextTimes_exhausted k fuel (snd (bfss3.Close i)) st) as (H1 & H2);
    simpl; [reflexivity|lia|exact Hb|].
  split; [exact H1|]. split; [exact H2|reflexivity].
Qed.

(** Where the position is at or past the end of the page, the accessors
    return zero values. *)
Lemma accessors_zero (i : bfss3.iterator) :
  len (bfss3.page i) <= bfss3.pos i ->
  bfss3.Name i = Some ""
  /\ bfss3.Size i = Some 0
  /\ bfss3.ModTime i = Some zeroTime.
Proof.
  intros H. unfold bfss3.Name, bfss3.Size, bfss3.ModTime.
  destruct (Z.ltb_spec (bfss3.pos i) (len (bfss3.page i))); [lia|]. auto.
Qed.

End Closing.

Lemma Close_exhausts_witness :
  fst (bfss3.Close mid_iterator) = None
  /\ bfss3.Close (snd (bfss3.Close mid_iterator))
     = (None, snd (bfss3.Close mid_iterator))
  /\ fst (fst (Runs.NextTimes Mem.api Mem.matcher 4 2
                 (snd (bfss3.Close mid_iterator)) store_one))
     = [Some false; Some false; Some false; Some false]
  /\ snd (Runs.NextTimes Mem.api Mem.matcher 4 2
            (snd (bfss3.Close mid_iterator)) store_one) = store_one
  /\ gsiter.Close (gsiter.gs_fresh "**") = None.
Proof.
  apply (Close_exhausts Mem.api Mem.matcher mid_iterator (gsiter.gs_fresh "**")
           4 2 store_one).
  vm_compute. reflexivity.
Defined.

(** C9, as the spec words it, fails for the iterator of the Google Cloud
    Storage adapter: its [Close] returns nil and does nothing, and the
    [Next] that follows draws the next object from the backend and answers
    [true]. *)
Lemma gs_Close_does_not_exhaust :
  ~ (forall (i : bfsgs.iterator (list bfsgs.ObjectAttrs)) (st : St Mem.World),
       gsiter.Close i = None ->
       fst (fst (bfsgs.Next Mem.gapi gsiter.no_skip 1 i st)) = Some false
       /\ snd (bfsgs.Next Mem.gapi gsiter.no_skip 1 i st) = st).
Proof.
  intros H.
  destruct (H (gsiter.gs_fresh "**") Mem.start eq_refl) as (H1 & _).
  discriminate H1.
Qed.

(** The run behind it: after [Close], [Next] answers [true], the log holds
    the call that drew the object, and the accessors show it. *)
Example gs_Next_after_Close :
  let i := gsiter.gs_fresh "**" in
  let r := bfsgs.Next Mem.gapi gsiter.no_skip 1 i Mem.start in
  gsiter.Close i = None
  /\ fst (fst r) = Some true
  /\ calls (snd r) = [CallGsNext]
  /\ gsiter.Name (snd (fst r)) = "a.txt".
Proof. vm_compute. repeat split. Qed.

(** C10 at the failing input: the first listing fails, [Next] answers
    [false], the position is left before the page, and each accessor
    indexes the page out of range instead of returning a zero value. *)
Theorem accessors_panic_after_failed_fetch :
  let r := bfss3.Next Mem.offline Mem.matcher 0 fresh_iterator store_one in
  fst (fst r) = Some false
  /\ bfss3.pos (snd (fst r)) = -1
  /\ bfss3.page (snd (fst r)) = []
  /\ bfss3.Name (snd (fst r)) = None
  /\ bfss3.Size (snd (fst r)) = None
  /\ bfss3.ModTime (snd (fst r)) = None.
Proof. repeat split. Qed.

(** * The writer *)

Section Writer.
Import Runs.

Context {W R : Type}.
Variable api : s3.API W R.
Variable fs : os.API W.

Lemma Create_fresh b nm o (st : St W) w e st' :
  bfss3.Create fs b nm o st = ((Some w, e), st') -> bfss3.closeOnce w = false.
Proof.
  unfold bfss3.Create, bind, call.
  destruct (os.TempFile fs (world st)) as [[f|e'] w']; simpl; intros [=].
  now subst.
Qed.

(** A finalized writer rejects [Commit] and [Discard] and does nothing. *)
Lemma Commit_finalized (w : bfss3.writer) (st : St W) :
  bfss3.closeOnce w = true ->
  bfss3.Commit api fs w st = ((Some Canceled, w), st).
Proof.
  intros H. unfold bfss3.Commit, sync.Once_Do, bind. rewrite H. simpl.
  destruct w; simpl in *; now subst.
Qed.

Lemma Discard_finalized (w : bfss3.writer) (st : St W) :
  bfss3.closeOnce w = true ->
  bfss3.Discard fs w st = ((Some Canceled, w), st).
Proof.
  intros H. unfold bfss3.Discard, sync.Once_Do, bind. rewrite H. simpl.
  destruct w; simpl in *; now subst.
Qed.

Lemma finalize_closes how (w : bfss3.writer) (st : St W) :
  bfss3.closeOnce (snd (fst (finalize api fs how w st))) = true.
Proof.
  destruct how; simpl.
  - unfold bfss3.Commit, sync.Once_Do, bind.
    destruct (bfss3.closeOnce w); [reflexivity|].
    now destruct (bfss3.commitOnce api fs w st).
  - unfold bfss3.Discard, sync.Once_Do, bind.
    destruct (bfss3.closeOnce w); [reflexivity|].
    now destruct (bfss3.discardOnce fs w st).
Qed.

Lemma removals_snoc f l c :
  removals f (l ++ [c]) = (removals f l + if is_remove f c then 1 else 0)%nat.
Proof.
  unfold removals. rewrite List.filter_app, List.length_app. simpl.
  now destruct (is_remove f c).
Qed.

Lemma uploads_snoc l c :
  uploads (l ++ [c]) = (uploads l + if is_upload c then 1 else 0)%nat.
Proof.
  unfold uploads. rewrite List.filter_app, List.length_app. simpl.
  now destruct (is_upload c).
Qed.

(** The first finalizer of a fresh writer removes the staging file once and
    uploads at most once; [Discard] never uploads. *)
Lemma finalize_first how (w : bfss3.writer) (st : St W) :
  bfss3.closeOnce w = false ->
  removals (bfss3.File w) (calls (snd (finalize api fs how w st)))
  = S (removals (bfss3.File w) (calls st))
  /\ (uploads (calls (snd (finalize api fs how w st))) <= S (uploads (calls st)))%nat
  /\ (how = ByDiscard ->
      uploads (calls (snd (finalize api fs how w st))) = uploads (calls st)).
Proof.
  intros H. destruct how; simpl.
  - unfold bfss3.Commit, sync.Once_Do, bfss3.commitOnce, bfss3.removeStaging,
      bind, call, ret. rewrite H.
    destruct (os.FileClose fs _ _) as [[e|] w1]; simpl.
    + destruct (os.Remove fs _ _) as [e' w2]; simpl.
      rewrite !removals_snoc, !uploads_snoc. simpl. rewrite String.eqb_refl.
      repeat split; try lia; try discriminate.
    + destruct (os.Open fs _ _) as [[u|e] w2]; simpl.
      * destruct (s3.UploadWithContext _ _ _) as [e w3]; simpl.
        destruct (os.FileClose fs _ _) as [e' w4]; simpl.
        destruct (os.Remove fs _ _) as [e'' w5]; simpl.
        rewrite !removals_snoc, !uploads_snoc. simpl. rewrite String.eqb_refl.
        repeat split; try lia; try discriminate.
      * destruct (os.Remove fs _ _) as [e' w3]; simpl.
        rewrite !removals_snoc, !uploads_snoc. simpl. rewrite String.eqb_refl.
        repeat split; try lia; try discriminate.
  - unfold bfss3.Discard, sync.Once_Do, bfss3.discardOnce, bfss3.removeStaging,
      bind, call, ret. rewrite H.
    destruct (os.FileClose fs _ _) as [e w1]; simpl.
    destruct (os.Remove fs _ _) as [e' w2]; simpl.
    rewrite !removals_snoc, !uploads_snoc. simpl. rewrite String.eqb_refl.
    repeat split; lia.
Qed.

(** C1: a writer that [Create] returned is finalized once.  Whichever of
    [Commit] and [Discard] is called first removes the staging file exactly
    once and uploads at most once; a [Commit] after it is rejected with the
    non-nil error [context.Canceled] and leaves the writer, the world and
    the log of calls as they are -- no further upload, no further removal --
    and so is a [Discard] after it. *)
Theorem finalize_exactly_once (b : bfss3.bucket) (nm : string)
    (o : option bfs.WriteOptions) (st0 st0' st : St W) (w : bfss3.writer)
    (e0 : option error) (how : finalizer) :
  bfss3.Create fs b nm o st0 = ((Some w, e0), st0') ->
  let r1 := finalize api fs how w st in
  let r2 := bfss3.Commit api fs (snd (fst r1)) (snd r1) in
  fst (fst r2) = Some Canceled
  /\ fst (fst r2) <> None
  /\ snd (fst r2) = snd (fst r1)
  /\ snd r2 = snd r1
  /\ uploads (calls (snd r2)) = uploads (calls (snd r1))
  /\ removals (bfss3.File w) (calls (snd r2)) = S (removals (bfss3.File w) (calls st))
  /\ (uploads (calls (snd r1)) <= S (uploads (calls st)))%nat
  /\ bfss3.Discard fs (snd (fst r1)) (snd r1) = ((Some Canceled, snd (fst r1)), snd r1).
Proof.
  intros HC r1 r2. apply Create_fresh in HC.
  pose proof (finalize_closes how w st) as Hdone. fold r1 in Hdone.
  pose proof (finalize_first how w st HC) as (Hr & Hu & _). fold r1 in Hr, Hu.
  assert (E : r2 = ((Some Canceled, snd (fst r1)), snd r1))
    by now apply Commit_finalized.
  rewrite E. simpl. repeat split; try assumption; try discriminate.
  now apply Discard_finalized.
Qed.

End Writer.

Example commit_run :
  calls (snd (bfss3.Commit Mem.api Mem.fs created_writer after_create))
  = [CallTempFile; CallFileClose "bfs-s3-0"; CallOpen "bfs-s3-0";
     CallUpload "bkt" "x/a.txt" "bfs-s3-0"; CallFileClose "bfs-s3-0";
     CallRemove "bfs-s3-0"].
Proof. reflexivity. Qed.

Lemma finalize_exactly_once_witness :
  let r1 := Runs.finalize Mem.api Mem.fs Runs.ByCommit created_writer after_create in
  let r2 := bfss3.Commit Mem.api Mem.fs (snd (fst r1)) (snd r1) in
  fst (fst r2) = Some Canceled
  /\ fst (fst r2) <> None
  /\ snd (fst r2) = snd (fst r1)
  /\ snd r2 = snd r1
  /\ Runs.uploads (calls (snd r2)) = Runs.uploads (calls (snd r1))
  /\ Runs.removals "bfs-s3-0" (calls (snd r2))
     = S (Runs.removals "bfs-s3-0" (calls after_create))
  /\ (Runs.uploads (calls (snd r1)) <= S (Runs.uploads (calls after_create)))%nat
  /\ bfss3.Discard Mem.fs (snd (fst r1)) (snd r1)
     = ((Some Canceled, snd (fst r1)), snd r1).
Proof.
  apply (finalize_exactly_once Mem.api Mem.fs bucket_x "a.txt" None Mem.start
           after_create after_create created_writer None Runs.ByCommit).
  reflexivity.
Defined.

(** * The local bucket *)

(** [bfsos.Remove] returns an error of [os.Remove] only when it is an
    "exists" error; the error for a missing file is swallowed. *)
Lemma bfsos_Remove_missing {W : Type} (fs : os.API W) (b : bfsos.bucket)
    (nm : string) (st : St W) ne w' :
  os.Remove fs (bfsos.resolve b nm) (world st) = (Some (PathError ne false), w') ->
  fst (bfsos.Remove fs b nm st) = None.
Proof.
  intros H. unfold bfsos.Remove, bind, call. now rewrite H.
Qed.

(** The prefix [Config.norm] leaves is empty or ends in a slash. *)
Lemma norm_prefix_table :
  map (fun p => bfss3.Prefix
                  (bfss3.norm {| bfss3.ACL := ""; bfss3.GrantFullControl := "";
                                 bfss3.SSE := ""; bfss3.Prefix := p |}))
    [""; "/"; "x"; "/x"; "x/"; "/x/y"; "x/123"]
  = [""; ""; "x/"; "x/"; "x/"; "x/y/"; "x/123/"].
Proof. reflexivity. Qed.

(** * Configuration *)

Section Configuration.
Import GoStrings GoStringsFacts GoPathFacts.

(** X1: the prefix [Config.norm] leaves is empty exactly when the configured
    prefix is empty or a lone slash; in every other case it ends in a slash.
    The same holds for the configuration of the Google Cloud Storage
    adapter. *)
Theorem norm_prefix_shape (c : bfss3.Config) (g : bfsgs.Config) :
  (bfss3.Prefix (bfss3.norm c) = ""
   <-> bfss3.Prefix c = "" \/ bfss3.Prefix c = "/")
  /\ (bfss3.Prefix (bfss3.norm c) <> "" ->
      HasSuffix (bfss3.Prefix (bfss3.norm c)) "/" = true)
  /\ (bfsgs.Prefix (bfsgs.norm g) = ""
      <-> bfsgs.Prefix g = "" \/ bfsgs.Prefix g = "/")
  /\ (bfsgs.Prefix (bfsgs.norm g) <> "" ->
      HasSuffix (bfsgs.Prefix (bfsgs.norm g)) "/" = true).
Proof.
  destruct (norm_prefix (bfss3.Prefix c)) as (H1 & H2).
  destruct (norm_prefix (bfsgs.Prefix g)) as (H3 & H4).
  split; [exact H1|]. split; [exact H2|]. split; [exact H3|exact H4].
Qed.

Lemma strPresence_None s : bfss3.strPresence s = None <-> s = "".
Proof.
  unfold bfss3.strPresence. destruct (String.eqb_spec s ""); simpl; split;
    congruence.
Qed.

(** X2: a bucket made by [New] never sends an upload or a copy without access
    control: the ACL or the grant is present, the ACL being the default one
    when the configuration names neither; an ACL or a grant that the
    configuration names is sent as it is. *)
Theorem New_access_control (nm : string) (cfg : option bfss3.Config) :
  let b := bfss3.New nm cfg in
  (bfss3.strPresence (bfss3.ACL (bfss3.config b)) <> None
   \/ bfss3.strPresence (bfss3.GrantFullControl (bfss3.config b)) <> None)
  /\ bfss3.GrantFullControl (bfss3.config b)
     = bfss3.GrantFullControl (default bfss3.zeroConfig cfg)
  /\ bfss3.SSE (bfss3.config b) = bfss3.SSE (default bfss3.zeroConfig cfg)
  /\ (bfss3.ACL (bfss3.config b)
      = if String.eqb (bfss3.ACL (default bfss3.zeroConfig cfg)) ""
           && String.eqb (bfss3.GrantFullControl (default bfss3.zeroConfig cfg)) ""
        then bfss3.DefaultACL
        else bfss3.ACL (default bfss3.zeroConfig cfg)).
Proof.
  intros b. subst b. simpl. repeat apply conj; try reflexivity.
  set (c := default bfss3.zeroConfig cfg).
  destruct (String.eqb_spec (bfss3.ACL c) "") as [Ea|Ea]; simpl.
  - destruct (String.eqb_spec (bfss3.GrantFullControl c) "") as [Eg|Eg]; simpl.
    + left. discriminate.
    + right. now rewrite strPresence_None.
  - left. now rewrite strPresence_None.
Qed.

End Configuration.

(** * More on errors and the single-object operations *)

Section Operations.

Context {W R : Type}.
Variable api : s3.API W R.
Variable fs : os.API W.
Variable NormMetadata : gmap string string -> gmap string string.
Variable BodyRead : R -> Z -> (Z * option error) * R.

(** X4: [normError] keeps failure and success apart -- it answers nil for nil
    only -- it answers [ErrNotFound], [context.Canceled] or the error it was
    given, and applying it twice changes nothing. *)
Theorem normError_faithful (e : option error) :
  (bfss3.normError e = None <-> e = None)
  /\ (bfss3.normError e = Some ErrNotFound
      \/ bfss3.normError e = Some Canceled
      \/ bfss3.normError e = e)
  /\ bfss3.normError (bfss3.normError e) = bfss3.normError e.
Proof.
  split; [split; [apply normError_nil|now intros ->]|].
  destruct e as [[]|]; simpl; auto.
  - destruct (status =? s3.StatusNotFound) eqn:E; simpl; [auto|].
    rewrite E. auto.
  - destruct (String.eqb code s3.ErrCodeNoSuchKey) eqn:E1; simpl; [auto|].
    destruct (String.eqb code s3.CanceledErrorCode) eqn:E2; simpl; [auto|].
    rewrite E1, E2. auto.
Qed.

(** X5: [Head] makes one call, for the bucket and the prefixed key, and returns
    the metadata under the name it was asked for and no error, or no
    metadata and a non-nil error. *)
Theorem Head_result (b : bfss3.bucket) (nm : string) (st : St W) :
  calls (snd (bfss3.Head api NormMetadata b nm st))
  = calls st ++ [CallHeadObject (bfss3.name b) (bfss3.withPrefix b nm)]
  /\ ((exists mi, fst (bfss3.Head api NormMetadata b nm st) = (Some mi, None)
                  /\ bfs.Name mi = nm)
      \/ (exists e, fst (bfss3.Head api NormMetadata b nm st) = (None, Some e))).
Proof.
  unfold bfss3.Head, bind, call.
  destruct (s3.HeadObjectWithContext _ _ _ _) as [[resp|e] w'].
  - simpl. split; [reflexivity|]. left. eexists. split; reflexivity.
  - destruct (bfss3.normError (Some e)) as [e'|] eqn:E;
      [|apply normError_nil in E; discriminate].
    simpl. split; [reflexivity|]. right. now exists e'.
Qed.

(** X6: [Open] makes one call, for the bucket and the prefixed key, and returns
    a reader and no error, or no reader and a non-nil error.  The reader is
    sized by the content length of the response, and by zero when the
    response has none; a reader sized zero or less answers [(0, EOF)] to
    every [Read] without reading the body. *)
Theorem Open_result (b : bfss3.bucket) (nm : string) (st : St W) :
  calls (snd (bfss3.Open api b nm st))
  = calls st ++ [CallGetObject (bfss3.name b) (bfss3.withPrefix b nm)]
  /\ match s3.GetObjectWithContext api (bfss3.name b) (bfss3.withPrefix b nm)
             (world st) with
     | (inl resp, _) =>
         exists r,
           fst (bfss3.Open api b nm st) = (Some r, None)
           /\ bfss3.ReadCloser r = s3.Body resp
           /\ bfss3.ContentLength r = default 0 (s3.ContentLength resp)
           /\ (default 0 (s3.ContentLength resp) <= 0 ->
               forall lenp, bfss3.Read BodyRead r lenp = ((0, Some EOF), r))
     | (inr e, _) =>
         exists e', fst (bfss3.Open api b nm st) = (None, Some e')
                    /\ bfss3.normError (Some e) = Some e'
     end.
Proof.
  unfold bfss3.Open, bind, call.
  destruct (s3.GetObjectWithContext _ _ _ _) as [[resp|e] w'].
  - simpl. split; [reflexivity|]. eexists. split; [reflexivity|].
    repeat split. intros H lenp. now apply Read_exhausted.
  - destruct (bfss3.normError (Some e)) as [e'|] eqn:E;
      [|apply normError_nil in E; discriminate].
    simpl. split; [reflexivity|]. now exists e'.
Qed.

(** X7: [Read] hides the transport's [EOF] only when the read completes the
    declared length: any other error, and an [EOF] that comes early, is
    returned as the transport reported it, with the count. *)
Theorem Read_reports_errors (r : bfss3.response R) (lenp n : Z)
    (e : option error) (body : R) :
  0 < bfss3.ContentLength r ->
  BodyRead (bfss3.ReadCloser r) (Z.min lenp (bfss3.ContentLength r))
  = ((n, e), body) ->
  e <> Some EOF \/ n <> bfss3.ContentLength r ->
  fst (bfss3.Read BodyRead r lenp) = (n, e)
  /\ bfss3.ReadCloser (snd (bfss3.Read BodyRead r lenp)) = body.
Proof.
  intros Hpos Hb Hne. unfold bfss3.Read.
  destruct (Z.leb_spec (bfss3.ContentLength r) 0); [lia|].
  replace (if lenp >? bfss3.ContentLength r then bfss3.ContentLength r else lenp)
    with (Z.min lenp (bfss3.ContentLength r))
    by (destruct (Z.gtb_spec lenp (bfss3.ContentLength r)); lia).
  rewrite Hb. simpl. split; [|reflexivity]. f_equal.
  destruct e as [[]|]; try reflexivity.
  destruct (Z.gtb_spec n 0); [|reflexivity].
  destruct (Z.eqb_spec n (bfss3.ContentLength r)); [|reflexivity].
  destruct Hne; congruence.
Qed.

End Operations.

(** A transport that fails half way. *)
Lemma Read_reports_errors_witness :
  fst (bfss3.Read (fun (s : Z) (l : Z) => ((2, Some (OtherError "reset")), s))
         short_response 3)
  = (2, Some (OtherError "reset"))
  /\ bfss3.ReadCloser
       (snd (bfss3.Read (fun (s : Z) (l : Z) => ((2, Some (OtherError "reset")), s))
               short_response 3)) = 10.
Proof.
  apply (Read_reports_errors
           (fun (s : Z) (l : Z) => ((2, Some (OtherError "reset")), s))
           short_response 3 2 (Some (OtherError "reset")) 10).
  - simpl. lia.
  - reflexivity.
  - left. discriminate.
Defined.

(** * More on the writer *)

Section WriterPaths.
Import Runs.

Context {W R : Type}.
Variable api : s3.API W R.
Variable fs : os.API W.

(** X8: [Create] asks the operating system for a staging file and nothing
    else: no call goes to the object store, so nothing becomes visible.
    It returns a writer that is not finalized, for the bucket, the name and
    the options given, or the error of the staging file as it is. *)
Theorem Create_stages_only (b : bfss3.bucket) (nm : string)
    (o : option bfs.WriteOptions) (st : St W) :
  calls (snd (bfss3.Create fs b nm o st)) = calls st ++ [CallTempFile]
  /\ uploads (calls (snd (bfss3.Create fs b nm o st))) = uploads (calls st)
  /\ match os.TempFile fs (world st) with
     | (inl f, _) =>
         fst (bfss3.Create fs b nm o st)
         = (Some {| bfss3.File := f; bfss3.wbucket := b; bfss3.wname := nm;
                    bfss3.opts := o; bfss3.closeOnce := false |}, None)
     | (inr e, _) => fst (bfss3.Create fs b nm o st) = (None, Some e)
     end.
Proof.
  unfold bfss3.Create, bind, call.
  destruct (os.TempFile fs (world st)) as [[f|e] w']; simpl;
    rewrite uploads_snoc; simpl; repeat split; lia.
Qed.

(** X9: [Discard] never contacts the object store.  On a writer that is not
    finalized it closes the staging file, removes it, and returns what
    closing reported; on a finalized writer it does nothing and returns
    [context.Canceled]. *)
Theorem Discard_local (w : bfss3.writer) (st : St W) :
  calls (snd (bfss3.Discard fs w st))
  = calls st ++ (if bfss3.closeOnce w then []
                 else [CallFileClose (bfss3.File w); CallRemove (bfss3.File w)])
  /\ fst (fst (bfss3.Discard fs w st))
     = (if bfss3.closeOnce w then Some Canceled
        else fst (os.FileClose fs (bfss3.File w) (world st)))
  /\ uploads (calls (snd (bfss3.Discard fs w st))) = uploads (calls st).
Proof.
  unfold bfss3.Discard, sync.Once_Do, bfss3.discardOnce, bfss3.removeStaging,
    bind, call, ret.
  destruct (bfss3.closeOnce w); simpl.
  - rewrite app_nil_r. auto.
  - destruct (os.FileClose fs _ _) as [e w1]; simpl.
    destruct (os.Remove fs _ _) as [e' w2]; simpl.
    rewrite <- List.app_assoc. simpl. repeat split.
    unfold uploads. rewrite List.filter_app. simpl. now rewrite app_nil_r.
Qed.

(** X10: [Commit] closes the staging file, opens it again and uploads it under
    the prefixed name with the content type and metadata of the options;
    it returns the upload's error through [normError].  When closing or
    opening fails it returns that error, through [normError], and uploads
    nothing.  On each path the staging file is removed, as the last call. *)
Theorem Commit_paths (w : bfss3.writer) (st : St W) :
  bfss3.closeOnce w = false ->
  match os.FileClose fs (bfss3.File w) (world st) with
  | (Some e, _) =>
      fst (fst (bfss3.Commit api fs w st)) = bfss3.normError (Some e)
      /\ calls (snd (bfss3.Commit api fs w st))
         = calls st ++ [CallFileClose (bfss3.File w); CallRemove (bfss3.File w)]
  | (None, w1) =>
      match os.Open fs (bfss3.File w) w1 with
      | (inr e, _) =>
          fst (fst (bfss3.Commit api fs w st)) = bfss3.normError (Some e)
          /\ calls (snd (bfss3.Commit api fs w st))
             = calls st ++ [CallFileClose (bfss3.File w); CallOpen (bfss3.File w);
                            CallRemove (bfss3.File w)]
      | (inl _, w2) =>
          fst (fst (bfss3.Commit api fs w st))
          = bfss3.normError (fst (s3.UploadWithContext api (More.commitInput w) w2))
          /\ calls (snd (bfss3.Commit api fs w st))
             = calls st ++
               [CallFileClose (bfss3.File w); CallOpen (bfss3.File w);
                CallUpload (bfss3.name (bfss3.wbucket w))
                  (bfss3.withPrefix (bfss3.wbucket w) (bfss3.wname w))
                  (bfss3.File w);
                CallFileClose (bfss3.File w); CallRemove (bfss3.File w)]
      end
  end.
Proof.
  intros H.
  unfold bfss3.Commit, sync.Once_Do, bfss3.commitOnce, bfss3.removeStaging,
    bind, call, ret, More.commitInput. rewrite H.
  destruct (os.FileClose fs _ _) as [[e|] w1]; cbn [fst snd world calls].
  - destruct (os.Remove fs _ _) as [e' w2]; cbn [fst snd world calls].
    now rewrite <- !List.app_assoc.
  - destruct (os.Open fs _ _) as [[u|e] w2]; cbn [fst snd world calls].
    + destruct (s3.UploadWithContext _ _ _) as [e w3]; cbn [fst snd world calls].
      destruct (os.FileClose fs _ _) as [e' w4]; cbn [fst snd world calls].
      destruct (os.Remove fs _ _) as [e'' w5]; cbn [fst snd world calls].
      now rewrite <- !List.app_assoc.
    + destruct (os.Remove fs _ _) as [e' w3]; cbn [fst snd world calls].
      now rewrite <- !List.app_assoc.
Qed.

End WriterPaths.

Lemma Commit_paths_witness :
  fst (fst (bfss3.Commit Mem.api Mem.fs created_writer after_create)) = None
  /\ calls (snd (bfss3.Commit Mem.api Mem.fs created_writer after_create))
     = calls after_create ++
       [CallFileClose "bfs-s3-0"; CallOpen "bfs-s3-0";
        CallUpload "bkt" "x/a.txt" "bfs-s3-0";
        CallFileClose "bfs-s3-0"; CallRemove "bfs-s3-0"].
Proof.
  apply (Commit_paths Mem.api Mem.fs created_writer after_create).
  reflexivity.
Defined.

(** * What the iterator yields *)

Section Pages.
Import More.

Context {W R : Type}.
Variable api : s3.API W R.
Variable Match : string -> string -> bool * option error.

Lemma matchContents_app b pat before after pg :
  matchable Match b pat before ->
  bfss3.matchContents Match b pat (before ++ after) pg
  = bfss3.matchContents Match b pat after (pg ++ matching Match b pat before).
Proof.
  revert pg. induction before as [|o before IH]; intros pg H.
  - simpl. unfold matching. simpl. now rewrite app_nil_r.
  - destruct o as [obj|]; simpl.
    + unfold matchable in H. simpl in H. inversion H as [|? ? Hobj Hrest]; subst.
      fold (shownName b obj). destruct (Match pat (shownName b obj)) as [ok e] eqn:E.
      simpl in Hobj. subst e. destruct ok.
      * rewrite IH by exact Hrest. unfold matching. simpl.
        fold (shownName b obj). rewrite E. simpl.
        f_equal. rewrite <- List.app_assoc. reflexivity.
      * rewrite IH by exact Hrest. unfold matching. simpl.
        fold (shownName b obj). now rewrite E.
    + apply IH. exact H.
Qed.

(** X11: a page whose matches all succeed is filtered: the iterator's page is
    the objects whose names, with the prefix taken off, match the pattern,
    in the order of the listing, nil entries left out. *)
Theorem matchContents_filters (b : bfss3.bucket) (pat : string)
    (contents : list (option s3.Object)) (pg : list bfss3.object) :
  matchable Match b pat contents ->
  bfss3.matchContents Match b pat contents pg
  = (None, pg ++ matching Match b pat contents).
Proof.
  intros H. rewrite <- (app_nil_r contents) at 1.
  now rewrite matchContents_app.
Qed.

(** X12: a match that fails ends the page there: the error is returned, the
    page holds the matches found before it, and what follows is not
    looked at. *)
Theorem matchContents_stops (b : bfss3.bucket) (pat : string)
    (before after : list (option s3.Object)) (obj : s3.Object) (e : error)
    (pg : list bfss3.object) :
  matchable Match b pat before ->
  snd (Match pat (shownName b obj)) = Some e ->
  bfss3.matchContents Match b pat (before ++ Some obj :: after) pg
  = (Some e, pg ++ matching Match b pat before).
Proof.
  intros H He. rewrite matchContents_app by exact H.
  destruct (Match pat (shownName b obj)) as [ok e'] eqn:E.
  simpl in He. subst e'. unfold shownName in E.
  cbn [bfss3.matchContents]. rewrite E. now destruct ok.
Qed.

Lemma matching_length b pat contents :
  len (matching Match b pat contents) <= len contents.
Proof.
  unfold matching, len. rewrite length_map.
  apply inj_le.
  induction contents as [|[obj|] contents IH].
  - simpl. lia.
  - change (omap id (Some obj :: contents)) with (obj :: omap id contents).
    simpl. destruct (fst (Match pat (shownName b obj))); simpl; lia.
  - change (omap id (None :: contents)) with (omap id contents).
    simpl. lia.
Qed.

End Pages.

Section Draining.
Import More.

Context {W R : Type}.
Variable api : s3.API W R.
Variable Match : string -> string -> bool * option error.

Lemma entry_index (i : bfss3.iterator) o :
  index (bfss3.page i) (bfss3.pos i) = Some o -> entry i = Some o.
Proof.
  intros H. unfold entry, bfss3.Name, bfss3.Size, bfss3.ModTime.
  assert (Hlt : (bfss3.pos i <? len (bfss3.page i)) = true).
  { unfold index in H.
    destruct (0 <=? bfss3.pos i); simpl in H; [|discriminate].
    destruct (bfss3.pos i <? len (bfss3.page i)); [reflexivity|discriminate]. }
  rewrite Hlt, H. simpl. now destruct o.
Qed.

Lemma index_app_middle {A} (done rem : list A) x :
  index (done ++ x :: rem) (len done) = Some x.
Proof.
  unfold index, len. rewrite List.length_app. simpl.
  destruct (Z.leb_spec 0 (Z.of_nat (length done))); [|lia].
  destruct (Z.ltb_spec (Z.of_nat (length done))
              (Z.of_nat (length done + S (length rem)))); [|lia].
  simpl. rewrite Nat2Z.id.
  rewrite nth_error_app2 by lia.
  now replace (length done - length done)%nat with 0%nat by lia.
Qed.

(** Inside a page [Next] moves to the next element and answers [true]. *)
Lemma Next_within fuel (j : bfss3.iterator) (st : St W) :
  bfss3.err j = None ->
  -1 <= bfss3.pos j ->
  bfss3.pos j + 1 < len (bfss3.page j) ->
  len (bfss3.page j) < 2 ^ 63 ->
  bfss3.Next api Match fuel j st = ((Some true, bfss3.advance j), st)
  /\ bfss3.pos (bfss3.advance j) = bfss3.pos j + 1.
Proof.
  intros He Hp Hlt Hb.
  assert (Hw : wrap64 (bfss3.pos j + 1) = bfss3.pos j + 1)
    by (apply wrap64_small; lia).
  split; [|exact Hw].
  destruct fuel; simpl; rewrite He; simpl; rewrite Hw;
    (destruct (Z.ltb_spec (bfss3.pos j + 1) (len (bfss3.page j))); [|lia]);
    reflexivity.
Qed.

(** At the end of the last page [Next] answers [false], without a call. *)
Lemma Next_at_end fuel (j : bfss3.iterator) (st : St W) :
  bfss3.err j = None ->
  bfss3.last j = true ->
  len (bfss3.page j) <= bfss3.pos j + 1 ->
  -1 <= bfss3.pos j < 2 ^ 63 - 1 ->
  bfss3.Next api Match fuel j st = ((Some false, bfss3.advance j), st).
Proof.
  intros He Hl Hlen Hp.
  assert (Hw : wrap64 (bfss3.pos j + 1) = bfss3.pos j + 1)
    by (apply wrap64_small; lia).
  destruct fuel; simpl; rewrite He; simpl; rewrite Hw, Hl;
    (destruct (Z.ltb_spec (bfss3.pos j + 1) (len (bfss3.page j))); [lia|]);
    reflexivity.
Qed.

(** At the end of a page that is not the last, [Next] asks for the next
    page with the token it holds and goes on from the new page. *)
Lemma Next_fetches fuel (j : bfss3.iterator) (st : St W) res w1 :
  bfss3.err j = None ->
  bfss3.last j = false ->
  len (bfss3.page j) <= bfss3.pos j + 1 ->
  -1 <= bfss3.pos j < 2 ^ 63 - 1 ->
  s3.ListObjectsV2WithContext api (bfss3.name (bfss3.parent j))
    (bfss3.Prefix (bfss3.config (bfss3.parent j))) (bfss3.token j) (world st)
  = (inl res, w1) ->
  matchable Match (bfss3.parent j) (bfss3.pattern j) (s3.Contents res) ->
  bfss3.Next api Match (S fuel) j st
  = bfss3.Next api Match fuel
      {| bfss3.parent := bfss3.parent j; bfss3.pattern := bfss3.pattern j;
         bfss3.token := s3.NextContinuationToken res; bfss3.err := None;
         bfss3.last := match s3.NextContinuationToken res with
                       | None => true | Some _ => false end;
         bfss3.pos := -1;
         bfss3.page := matching Match (bfss3.parent j) (bfss3.pattern j)
                         (s3.Contents res) |}
      (mkSt w1
         (calls st ++
          [CallListObjectsV2 (bfss3.name (bfss3.parent j))
             (bfss3.Prefix (bfss3.config (bfss3.parent j))) (bfss3.token j)])).
Proof.
  intros He Hl Hlen Hp Hlist Hm.
  assert (Hw : wrap64 (bfss3.pos j + 1) = bfss3.pos j + 1)
    by (apply wrap64_small; lia).
  cbn [bfss3.Next]. rewrite He. cbn [bfss3.advance bfss3.pos bfss3.page bfss3.last].
  rewrite Hw, Hl.
  destruct (Z.ltb_spec (bfss3.pos j + 1) (len (bfss3.page j))); [lia|].
  unfold bind at 1. unfold bfss3.fetchNextPage at 1. unfold bind at 1, call at 1.
  cbn [bfss3.advance bfss3.parent bfss3.token bfss3.pattern bfss3.err world calls].
  rewrite Hlist.
  assert (HM : bfss3.matchContents Match (bfss3.parent j) (bfss3.pattern j)
                 (s3.Contents res) []
               = (None, matching Match (bfss3.parent j) (bfss3.pattern j)
                          (s3.Contents res))).
  { rewrite <- (app_nil_r (s3.Contents res)) at 1.
    now rewrite matchContents_app. }
  rewrite HM.
  rewrite He. reflexivity.
Qed.

(** More fuel does not change an answer. *)
Lemma Next_mono fuel (i : bfss3.iterator) (st : St W) r i' st' :
  bfss3.Next api Match fuel i st = ((Some r, i'), st') ->
  forall fuel', (fuel <= fuel')%nat ->
  bfss3.Next api Match fuel' i st = ((Some r, i'), st').
Proof.
  revert i st; induction fuel as [|fuel IH]; intros i st H fuel' Hle.
  - destruct fuel'; [exact H|]. revert H. simpl.
    destruct (bfss3.err i); [auto|].
    destruct (_ <? _); [auto|].
    destruct (bfss3.last _); [auto|].
    unfold bind. destruct (bfss3.fetchNextPage _ _ _ _) as [[e i2] st2]. simpl.
    destruct e; [auto|]. unfold ret. intros [=].
  - destruct fuel' as [|fuel']; [lia|]. revert H. simpl.
    destruct (bfss3.err i); [auto|].
    destruct (_ <? _); [auto|].
    destruct (bfss3.last _); [auto|].
    unfold bind. destruct (bfss3.fetchNextPage _ _ _ _) as [[e i2] st2]. simpl.
    destruct e; [auto|]. intros H. apply IH; [exact H|lia].
Qed.

Lemma iter_advance n (j : bfss3.iterator) :
  - 2 ^ 63 <= bfss3.pos j ->
  bfss3.pos j + Z.of_nat n < 2 ^ 63 ->
  bfss3.parent (Nat.iter n bfss3.advance j) = bfss3.parent j
  /\ bfss3.pattern (Nat.iter n bfss3.advance j) = bfss3.pattern j
  /\ bfss3.token (Nat.iter n bfss3.advance j) = bfss3.token j
  /\ bfss3.err (Nat.iter n bfss3.advance j) = bfss3.err j
  /\ bfss3.last (Nat.iter n bfss3.advance j) = bfss3.last j
  /\ bfss3.page (Nat.iter n bfss3.advance j) = bfss3.page j
  /\ bfss3.pos (Nat.iter n bfss3.advance j) = bfss3.pos j + Z.of_nat n.
Proof.
  induction n as [|n IH]; intros H1 H2.
  - simpl. repeat split. lia.
  - destruct IH as (P1 & P2 & P3 & P4 & P5 & P6 & P7); [lia|lia|].
    simpl. repeat split; try assumption.
    rewrite P7, wrap64_small; lia.
Qed.

Lemma drain_Next n fuel (i : bfss3.iterator) (st : St W) :
  drain api Match (S n) fuel i st
  = (let '((r, i1), st1) := bfss3.Next api Match fuel i st in
     match r with
     | None => ((None, i1), st1)
     | Some false => ((Some [], i1), st1)
     | Some true =>
         let '((o, i2), st2) := drain api Match n fuel i1 st1 in
         ((option_map (cons (entry i1)) o, i2), st2)
     end).
Proof.
  cbn [drain]. unfold bind.
  destruct (bfss3.Next api Match fuel i st) as [[[[|]|] i1] st1]; cbn [fst snd];
    try reflexivity.
  unfold ret. now destruct (drain api Match n fuel i1 st1) as [[o i2] st2].
Qed.

(** Through a page the loop reads the elements that are left, in order. *)
Lemma drain_page fuel (st : St W) rem :
  forall done (j : bfss3.iterator) m,
    bfss3.page j = done ++ rem ->
    bfss3.pos j = len done - 1 ->
    bfss3.err j = None ->
    len (bfss3.page j) < 2 ^ 63 ->
    drain api Match (length rem + m) fuel j st
    = (let '((o, i'), st') :=
         drain api Match m fuel (Nat.iter (length rem) bfss3.advance j) st in
       ((option_map (app (map Some rem)) o, i'), st')).
Proof.
  induction rem as [|x rem IH]; intros done j m Hpg Hpos He Hb.
  - simpl. destruct (drain api Match m fuel j st) as [[[o|] i'] st']; reflexivity.
  - change (length (x :: rem) + m)%nat with (S (length rem + m)).
    rewrite drain_Next.
    assert (Hlen : len (bfss3.page j) = len done + 1 + len rem).
    { rewrite Hpg. unfold len. rewrite List.length_app. simpl. lia. }
    assert (Hd : 0 <= len done) by (unfold len; lia).
    assert (Hr : 0 <= len rem) by (unfold len; lia).
    destruct (Next_within fuel j st He ltac:(lia) ltac:(lia) Hb) as (HN & Hp1).
    rewrite HN.
    assert (Hpg1 : bfss3.page (bfss3.advance j) = (done ++ [x]) ++ rem).
    { simpl. rewrite Hpg. now rewrite <- List.app_assoc. }
    assert (Hpos1 : bfss3.pos (bfss3.advance j) = len (done ++ [x]) - 1).
    { rewrite Hp1, Hpos. unfold len. rewrite List.length_app. simpl. lia. }
    rewrite (IH (done ++ [x]) (bfss3.advance j) m Hpg1 Hpos1 He Hb).
    rewrite <- Nat.iter_succ_r.
    assert (Hentry : entry (bfss3.advance j) = Some x).
    { apply entry_index. rewrite Hp1, Hpos. simpl bfss3.page. rewrite Hpg.
      replace (len done - 1 + 1) with (len done) by lia.
      apply index_app_middle. }
    rewrite Hentry.
    destruct (drain api Match m fuel _ st) as [[[o|] i'] st']; reflexivity.
Qed.

Lemma drain_Some_Next n fuel (i : bfss3.iterator) (st : St W) l i' st' :
  drain api Match (S n) fuel i st = ((Some l, i'), st') ->
  exists r i1 st1, bfss3.Next api Match fuel i st = ((Some r, i1), st1).
Proof.
  rewrite drain_Next.
  destruct (bfss3.Next api Match fuel i st) as [[[r|] i1] st1]; [eauto|].
  intros [=].
Qed.

Lemma drain_shift n fuel (i j : bfss3.iterator) (st st2 : St W) l i' st' :
  bfss3.Next api Match (S fuel) i st = bfss3.Next api Match fuel j st2 ->
  drain api Match (S n) fuel j st2 = ((Some l, i'), st') ->
  drain api Match (S n) (S fuel) i st = drain api Match (S n) (S fuel) j st2.
Proof.
  intros HN Hd. apply drain_Some_Next in Hd as (r & i1 & st1 & Hj).
  rewrite !drain_Next, HN, Hj.
  now rewrite (Next_mono _ _ _ _ _ _ Hj (S fuel) ltac:(lia)).
Qed.

(** One page: the loop asks for it, reads its matches, and goes on as the
    iterator does at the end of this page. *)
Lemma drain_fetch_page (i : bfss3.iterator) (st : St W) res w1 tail stf m0 f0 :
  bfss3.err i = None ->
  bfss3.last i = false ->
  len (bfss3.page i) <= bfss3.pos i + 1 ->
  -1 <= bfss3.pos i < 2 ^ 63 - 1 ->
  s3.ListObjectsV2WithContext api (bfss3.name (bfss3.parent i))
    (bfss3.Prefix (bfss3.config (bfss3.parent i))) (bfss3.token i) (world st)
  = (inl res, w1) ->
  matchable Match (bfss3.parent i) (bfss3.pattern i) (s3.Contents res) ->
  len (s3.Contents res) < 2 ^ 63 - 1 ->
  forall j2 st2,
    j2 = {| bfss3.parent := bfss3.parent i; bfss3.pattern := bfss3.pattern i;
            bfss3.token := s3.NextContinuationToken res; bfss3.err := None;
            bfss3.last := match s3.NextContinuationToken res with
                          | None => true | Some _ => false end;
            bfss3.pos := -1;
            bfss3.page := matching Match (bfss3.parent i) (bfss3.pattern i)
                            (s3.Contents res) |} ->
    st2 = mkSt w1
            (calls st ++
             [CallListObjectsV2 (bfss3.name (bfss3.parent i))
                (bfss3.Prefix (bfss3.config (bfss3.parent i))) (bfss3.token i)]) ->
    (forall m f, (m0 <= m)%nat -> (f0 <= f)%nat ->
       exists i',
         drain api Match m f
           (Nat.iter (length (bfss3.page j2)) bfss3.advance j2) st2
         = ((Some tail, i'), stf)
         /\ bfss3.err i' = None) ->
    forall n fuel,
      (length (bfss3.page j2) + m0 <= n)%nat -> (1 <= n)%nat -> (S f0 <= fuel)%nat ->
      exists i',
        drain api Match n fuel i st
        = ((Some (map Some (bfss3.page j2) ++ tail), i'), stf)
        /\ bfss3.err i' = None.
Proof.
  intros He Hl Hlen Hp Hlist Hm Hb j2 st2 Hj2 Hst2 Htail n fuel Hn Hn1 Hf.
  assert (Hpg : len (bfss3.page j2) < 2 ^ 63).
  { rewrite Hj2. simpl.
    pose proof (matching_length Match (bfss3.parent i) (bfss3.pattern i)
                  (s3.Contents res)). lia. }
  assert (A : forall f, (f0 <= f)%nat ->
            exists i',
              drain api Match n f j2 st2
              = ((Some (map Some (bfss3.page j2) ++ tail), i'), stf)
              /\ bfss3.err i' = None).
  { intros f Hf0.
    replace n with (length (bfss3.page j2) + (n - length (bfss3.page j2)))%nat
      by lia.
    rewrite (drain_page f st2 (bfss3.page j2) [] j2 _ eq_refl);
      [|now rewrite Hj2|now rewrite Hj2|exact Hpg].
    destruct (Htail (n - length (bfss3.page j2))%nat f ltac:(lia) Hf0)
      as (i' & -> & Hi').
    exists i'. split; [reflexivity|exact Hi']. }
  destruct n as [|n]; [lia|]. destruct fuel as [|fuel]; [lia|].
  destruct (A fuel ltac:(lia)) as (i0 & H0 & _).
  destruct (A (S fuel) ltac:(lia)) as (i' & H1 & Hi').
  exists i'. split; [|exact Hi'].
  rewrite <- H1. eapply drain_shift; [|exact H0].
  rewrite (Next_fetches fuel i st res w1 He Hl Hlen Hp Hlist Hm).
  now rewrite Hj2, Hst2.
Qed.

Lemma drain_listing b pat tok w pages w' :
  listing api b tok w pages w' ->
  pages_ok Match b pat pages ->
  forall (i : bfss3.iterator) (st : St W) n fuel,
    world st = w ->
    bfss3.parent i = b ->
    bfss3.pattern i = pat ->
    bfss3.token i = tok ->
    bfss3.err i = None ->
    bfss3.last i = false ->
    len (bfss3.page i) <= bfss3.pos i + 1 ->
    -1 <= bfss3.pos i < 2 ^ 63 - 1 ->
    (length (expected Match b pat pages) < n)%nat ->
    (length pages <= fuel)%nat ->
    exists i',
      drain api Match n fuel i st
      = ((Some (map Some (expected Match b pat pages)), i'),
         mkSt w'
           (calls st ++
            map (CallListObjectsV2 (bfss3.name b) (bfss3.Prefix (bfss3.config b)))
              (tokens tok pages)))
      /\ bfss3.err i' = None.
Proof.
  induction 1 as [tok w res w' Hlist Htok|tok w res w1 t rest w' Hlist Htok Hrest IH];
    intros Hok i st n fuel Hw Hb Hpat Htk He Hl Hlen Hp Hn Hf;
    inversion Hok as [|? ? [Hm Hbound] Hok']; subst.
  - unfold expected in *. simpl in *. rewrite app_nil_r in *.
    set (pg := matching Match (bfss3.parent i) (bfss3.pattern i) (s3.Contents res)) in *.
    pose proof (matching_length Match (bfss3.parent i) (bfss3.pattern i)
                  (s3.Contents res)) as Hpl. fold pg in Hpl.
    rewrite <- (app_nil_r (map Some pg)).
    eapply (drain_fetch_page i st res w' [] _ 1 0 He Hl Hlen Hp Hlist Hm Hbound
              _ _ eq_refl eq_refl); simpl bfss3.page; fold pg; try lia.
    intros [|m] f Hm1 _; [lia|].
    rewrite Htok.
    match goal with |- context [Nat.iter _ _ ?j] => set (j2 := j) end.
    assert (X1 : - 2 ^ 63 <= bfss3.pos j2) by (unfold j2; simpl; lia).
    assert (X2 : bfss3.pos j2 + Z.of_nat (length pg) < 2 ^ 63)
      by (unfold j2; simpl; unfold len in *; lia).
    destruct (iter_advance (length pg) j2 X1 X2)
      as (_ & _ & _ & E4 & E5 & E6 & E7).
    rewrite drain_Next, Next_at_end.
    + eexists. split; [reflexivity|]. simpl. exact E4.
    + exact E4.
    + exact E5.
    + rewrite E6, E7. simpl. unfold len. lia.
    + rewrite E7. simpl. unfold len in *. lia.
  - unfold expected in *. simpl in *. rewrite List.length_app in Hn.
    set (pg := matching Match (bfss3.parent i) (bfss3.pattern i) (s3.Contents res)) in *.
    pose proof (matching_length Match (bfss3.parent i) (bfss3.pattern i)
                  (s3.Contents res)) as Hpl. fold pg in Hpl.
    rewrite map_app.
    replace (calls st ++
             CallListObjectsV2 (bfss3.name (bfss3.parent i))
               (bfss3.Prefix (bfss3.config (bfss3.parent i))) (bfss3.token i)
             :: map (CallListObjectsV2 (bfss3.name (bfss3.parent i))
                       (bfss3.Prefix (bfss3.config (bfss3.parent i))))
                  (tokens (s3.NextContinuationToken res) rest))
      with ((calls st ++
             [CallListObjectsV2 (bfss3.name (bfss3.parent i))
                (bfss3.Prefix (bfss3.config (bfss3.parent i))) (bfss3.token i)]) ++
            map (CallListObjectsV2 (bfss3.name (bfss3.parent i))
                   (bfss3.Prefix (bfss3.config (bfss3.parent i))))
              (tokens (s3.NextContinuationToken res) rest))
      by now rewrite <- List.app_assoc.
    eapply (drain_fetch_page i st res w1 _ _
              (S (length (concat (map (fun r => matching Match (bfss3.parent i)
                                                  (bfss3.pattern i) (s3.Contents r))
                                    rest))))
              (length rest) He Hl Hlen Hp Hlist Hm Hbound
              _ _ eq_refl eq_refl); simpl bfss3.page; fold pg; try lia.
    intros m f Hm1 Hf1.
    match goal with |- context [Nat.iter _ _ ?j] => set (j2 := j) end.
    assert (X1 : - 2 ^ 63 <= bfss3.pos j2) by (unfold j2; simpl; lia).
    assert (X2 : bfss3.pos j2 + Z.of_nat (length pg) < 2 ^ 63)
      by (unfold j2; simpl; unfold len in *; lia).
    destruct (iter_advance (length pg) j2 X1 X2)
      as (E1 & E2 & E3 & E4 & E5 & E6 & E7).
    rewrite Htok.
    apply (IH Hok'); try assumption; try lia.
    + reflexivity.
    + now rewrite E3; simpl; rewrite Htok.
    + now rewrite E5; simpl; rewrite Htok.
    + rewrite E6, E7. simpl. unfold len. lia.
    + rewrite E7. simpl. unfold len in *. lia.
Qed.

(** X13: the iterator of [Glob] yields what the listing holds: when the backend
    hands out the pages of the prefix, chained by their continuation tokens,
    and every match succeeds, the loop over [Next] reads through the
    accessors exactly the objects whose names match the pattern, page after
    page in the order of the listing, then [Next] answers [false] with no
    error; each page is asked for once, with the token of the page before. *)
Theorem Glob_iterates_matches (b : bfss3.bucket) (pat : string) (st : St W)
    (i0 : bfss3.iterator) (pages : list s3.ListObjectsV2Output) (w' : W)
    (n fuel : nat) :
  fst (bfss3.Glob Match b pat st) = (Some i0, None) ->
  listing api b None (world st) pages w' ->
  pages_ok Match b pat pages ->
  (length (expected Match b pat pages) < n)%nat ->
  (length pages <= fuel)%nat ->
  exists i',
    drain api Match n fuel i0 st
    = ((Some (map Some (expected Match b pat pages)), i'),
       mkSt w'
         (calls st ++
          map (CallListObjectsV2 (bfss3.name b) (bfss3.Prefix (bfss3.config b)))
            (tokens None pages)))
    /\ bfss3.Error i' = None.
Proof.
  intros HG Hlist Hok Hn Hf.
  assert (Hi0 : i0 = {| bfss3.parent := b; bfss3.pattern := pat;
                         bfss3.token := None; bfss3.err := None;
                         bfss3.last := false; bfss3.pos := 0; bfss3.page := [] |}).
  { revert HG. unfold bfss3.Glob. destruct (snd (Match pat "")); simpl; [intros [=]|].
    now intros [= <-]. }
  subst i0.
  eapply drain_listing; try eassumption; try reflexivity; simpl; unfold len; simpl; lia.
Qed.

End Draining.

Example store_three_expected :
  map bfss3.key (More.expected Mem.matcher bucket_x "**" More.store_three_pages)
  = ["a.txt"; "b/c.txt"].
Proof. reflexivity. Qed.

Lemma Glob_iterates_matches_witness :
  exists i',
    More.drain Mem.api Mem.matcher 3 1 fresh_iterator More.store_three
    = ((Some (map Some (More.expected Mem.matcher bucket_x "**"
                          More.store_three_pages)), i'),
       mkSt (world More.store_three)
         (calls More.store_three ++
          map (CallListObjectsV2 "bkt" "x/")
            (More.tokens None More.store_three_pages)))
    /\ bfss3.Error i' = None.
Proof.
  apply (Glob_iterates_matches Mem.api Mem.matcher bucket_x "**" More.store_three
           fresh_iterator More.store_three_pages (world More.store_three) 3 1).
  - reflexivity.
  - apply More.listing_last; [vm_compute; reflexivity|reflexivity].
  - constructor; [|constructor]. split.
    + repeat constructor.
    + unfold len. simpl. lia.
  - simpl. lia.
  - simpl. lia.
Defined.

(** * The accessors *)

Section Accessors.

Context {W R : Type}.
Variable api : s3.API W R.
Variable Match : string -> string -> bool * option error.

Lemma fetchNextPage_pos (i : bfss3.iterator) (st : St W) :
  bfss3.pos (snd (fst (bfss3.fetchNextPage api Match i st))) = -1.
Proof.
  unfold bfss3.fetchNextPage, bind, call.
  destruct (s3.ListObjectsV2WithContext _ _ _ _ _) as [[res|e] w'].
  - now destruct (bfss3.matchContents _ _ _ _ _).
  - reflexivity.
Qed.

Lemma accessors_element (i : bfss3.iterator) :
  0 <= bfss3.pos i < len (bfss3.page i) ->
  exists o,
    index (bfss3.page i) (bfss3.pos i) = Some o
    /\ bfss3.Name i = Some (bfss3.key o)
    /\ bfss3.Size i = Some (bfss3.size o)
    /\ bfss3.ModTime i = Some (bfss3.modTime o).
Proof.
  intros H.
  assert (Hn : (Z.to_nat (bfss3.pos i) < length (bfss3.page i))%nat)
    by (unfold len in H; lia).
  apply nth_error_Some in Hn.
  destruct (nth_error (bfss3.page i) (Z.to_nat (bfss3.pos i))) as [o|] eqn:E;
    [|congruence].
  assert (Hi : index (bfss3.page i) (bfss3.pos i) = Some o).
  { unfold index.
    destruct (Z.leb_spec 0 (bfss3.pos i)); [|lia].
    destruct (Z.ltb_spec (bfss3.pos i) (len (bfss3.page i))); [|lia].
    exact E. }
  exists o. unfold bfss3.Name, bfss3.Size, bfss3.ModTime.
  destruct (Z.ltb_spec (bfss3.pos i) (len (bfss3.page i))); [|lia].
  rewrite Hi. auto.
Qed.

(** X14: after a [Next] that answered [true] the accessors return the name, the
    size and the modification time of the element of the page the iterator
    stands on; they do not index out of range, and no error is held. *)
Theorem Next_true_accessors (fuel : nat) (i : bfss3.iterator) (st : St W) :
  -1 <= bfss3.pos i < 2 ^ 63 - 1 ->
  fst (fst (bfss3.Next api Match fuel i st)) = Some true ->
  exists o,
    index (bfss3.page (snd (fst (bfss3.Next api Match fuel i st))))
      (bfss3.pos (snd (fst (bfss3.Next api Match fuel i st)))) = Some o
    /\ bfss3.Name (snd (fst (bfss3.Next api Match fuel i st))) = Some (bfss3.key o)
    /\ bfss3.Size (snd (fst (bfss3.Next api Match fuel i st))) = Some (bfss3.size o)
    /\ bfss3.ModTime (snd (fst (bfss3.Next api Match fuel i st)))
       = Some (bfss3.modTime o).
Proof.
  revert i st; induction fuel as [|fuel IH]; intros i st Hp; simpl;
    (destruct (bfss3.err i); [simpl; discriminate|]);
    (assert (Hw : wrap64 (bfss3.pos i + 1) = bfss3.pos i + 1)
       by (apply wrap64_small; lia));
    rewrite Hw;
    (destruct (Z.ltb_spec (bfss3.pos i + 1) (len (bfss3.page i)));
     [intros _; apply accessors_element; simpl; rewrite Hw; lia|]);
    (destruct (bfss3.last i); [simpl; discriminate|]);
    unfold bind;
    pose proof (fetchNextPage_pos (bfss3.advance i) st) as Hpos;
    destruct (bfss3.fetchNextPage api Match (bfss3.advance i) st)
      as [[e i2] st2];
    simpl in *; (destruct e; [simpl; discriminate|]).
  - simpl. discriminate.
  - apply IH. lia.
Qed.

(** X15: where no element is under the cursor and no error is held, the
    accessors return zero values: on the iterator [Glob] returns, after
    [Close], and after a [Next] that answered [false] without an error. *)
Theorem accessors_zero_values (fuel : nat) (b : bfss3.bucket) (pat : string)
    (i i0 : bfss3.iterator) (st : St W) :
  -1 <= bfss3.pos i < 2 ^ 63 - 1 ->
  fst (bfss3.Glob Match b pat st) = (Some i0, None) ->
  (bfss3.Name i0 = Some "" /\ bfss3.Size i0 = Some 0
   /\ bfss3.ModTime i0 = Some zeroTime)
  /\ (bfss3.Name (snd (bfss3.Close i)) = Some ""
      /\ bfss3.Size (snd (bfss3.Close i)) = Some 0
      /\ bfss3.ModTime (snd (bfss3.Close i)) = Some zeroTime)
  /\ (fst (fst (bfss3.Next api Match fuel i st)) = Some false ->
      bfss3.err (snd (fst (bfss3.Next api Match fuel i st))) = None ->
      bfss3.Name (snd (fst (bfss3.Next api Match fuel i st))) = Some ""
      /\ bfss3.Size (snd (fst (bfss3.Next api Match fuel i st))) = Some 0
      /\ bfss3.ModTime (snd (fst (bfss3.Next api Match fuel i st)))
         = Some zeroTime).
Proof.
  intros Hp HG. split; [|split].
  - revert HG. unfold bfss3.Glob. destruct (snd (Match pat "")); simpl; [intros [=]|].
    intros [= <-]. apply accessors_zero. simpl. unfold len. simpl. lia.
  - apply accessors_zero. simpl. lia.
  - clear HG. revert i st Hp; induction fuel as [|fuel IH]; intros i st Hp; simpl;
      (destruct (bfss3.err i) eqn:Ei; [simpl; congruence|]);
      (assert (Hw : wrap64 (bfss3.pos i + 1) = bfss3.pos i + 1)
         by (apply wrap64_small; lia));
      rewrite Hw;
      (destruct (Z.ltb_spec (bfss3.pos i + 1) (len (bfss3.page i)));
       [simpl; discriminate|]);
      (destruct (bfss3.last i);
       [intros _ _; apply accessors_zero; simpl; rewrite Hw; lia|]);
      unfold bind;
      pose proof (fetchNextPage_pos (bfss3.advance i) st) as Hpos;
      destruct (bfss3.fetchNextPage api Match (bfss3.advance i) st)
        as [[e i2] st2];
      simpl in *; (destruct e; [simpl; discriminate|]).
    + simpl. discriminate.
    + apply IH. lia.
Qed.

End Accessors.

Lemma Next_true_accessors_witness :
  exists o,
    index (bfss3.page (snd (fst (bfss3.Next Mem.api Mem.matcher 1 fresh_iterator
                                   store_one))))
      (bfss3.pos (snd (fst (bfss3.Next Mem.api Mem.matcher 1 fresh_iterator
                              store_one)))) = Some o
    /\ bfss3.Name (snd (fst (bfss3.Next Mem.api Mem.matcher 1 fresh_iterator
                               store_one))) = Some (bfss3.key o)
    /\ bfss3.Size (snd (fst (bfss3.Next Mem.api Mem.matcher 1 fresh_iterator
                               store_one))) = Some (bfss3.size o)
    /\ bfss3.ModTime (snd (fst (bfss3.Next Mem.api Mem.matcher 1 fresh_iterator
                                  store_one))) = Some (bfss3.modTime o).
Proof.
  apply (Next_true_accessors Mem.api Mem.matcher 1 fresh_iterator store_one).
  - simpl. lia.
  - reflexivity.
Defined.

Lemma accessors_zero_values_witness :
  bfss3.Name (snd (bfss3.Close mid_iterator)) = Some ""
  /\ bfss3.Name (snd (fst (bfss3.Next Mem.api Mem.matcher 1
                             (snd (fst (bfss3.Next Mem.api Mem.matcher 1
                                          fresh_iterator store_one)))
                             store_one))) = Some "".
Proof.
  destruct (accessors_zero_values Mem.api Mem.matcher 1 bucket_x "**"
              mid_iterator fresh_iterator store_one) as (_ & (H2 & _) & _).
  - simpl. lia.
  - reflexivity.
  - split; [exact H2|].
    destruct (accessors_zero_values Mem.api Mem.matcher 1 bucket_x "**"
                (snd (fst (bfss3.Next Mem.api Mem.matcher 1 fresh_iterator
                             store_one)))
                fresh_iterator store_one) as (_ & _ & H3).
    + vm_compute. split; [discriminate|reflexivity].
    + reflexivity.
    + apply H3; reflexivity.
Defined.

(** * The registry of schemes *)

Section Registry.
Import registry.

Context {W B : Type}.
Variable Quote : string -> string.
Variable Parse : string -> URL + error.

(** X17: a scheme that was registered resolves through its resolver, and
    registering it leaves every other scheme as it was. *)
Theorem Register_then_Resolve (scheme : string) (resv : @Resolver W B)
    (reg reg' : gmap string (@Resolver W B)) (u : URL) (st : St W) :
  Register scheme resv reg = Some reg' ->
  (Scheme u = scheme -> Resolve Quote reg' u st = resv u st)
  /\ (Scheme u <> scheme -> Resolve Quote reg' u st = Resolve Quote reg u st)
  /\ (forall s, Parse s = inl u -> Scheme u = scheme ->
        Connect Quote Parse reg' s st = resv u st).
Proof.
  unfold Register. destruct (reg !! scheme) eqn:E; [discriminate|].
  intros [= <-]. unfold Connect, Resolve. repeat split.
  - intros ->. now rewrite lookup_insert_eq.
  - intros H. rewrite lookup_insert_ne by congruence. reflexivity.
  - intros s -> <-. now rewrite lookup_insert_eq.
Qed.

(** X18: registering a scheme a second time panics, whatever the resolver, and a
    scheme can be registered exactly when it is not yet in the registry. *)
Theorem Register_twice_panics (scheme : string) (resv resv' : @Resolver W B)
    (reg : gmap string (@Resolver W B)) :
  (Register scheme resv reg = None <-> is_Some (reg !! scheme))
  /\ (forall reg', Register scheme resv reg = Some reg' ->
        Register scheme resv' reg' = None).
Proof.
  unfold Register. split.
  - destruct (reg !! scheme) eqn:E; split; try discriminate; eauto.
    intros [x Hx]. discriminate.
  - intros reg'. destruct (reg !! scheme) eqn:E; [discriminate|].
    intros [= <-]. now rewrite lookup_insert_eq.
Qed.

(** X19: a URL whose scheme is not registered resolves to no bucket and an
    error, without running any resolver: the world and the log stay as they
    are.  [Connect] returns the error of a URL that does not parse. *)
Theorem Resolve_unknown_scheme (reg : gmap string (@Resolver W B)) (u : URL)
    (s : string) (e : error) (st : St W) :
  reg !! Scheme u = None ->
  Parse s = inr e ->
  (exists e', Resolve Quote reg u st = ((None, Some e'), st))
  /\ Connect Quote Parse reg s st = ((None, Some e), st).
Proof.
  intros H HP. unfold Connect, Resolve. unfold Resolver in *. split.
  - eexists. rewrite H. reflexivity.
  - rewrite HP. reflexivity.
Qed.

End Registry.

Lemma Register_then_Resolve_witness :
  (registry.Resolve Samples.quote (<["s3" := Samples.s3_resolver]> ∅)
     Samples.url_s3 Mem.start
   = Samples.s3_resolver Samples.url_s3 Mem.start)
  /\ registry.Connect Samples.quote Samples.parse
       (<["s3" := Samples.s3_resolver]> ∅) "s3://bkt/x" Mem.start
     = ((Some bucket_x, None), Mem.start).
Proof.
  assert (HR : registry.Register "s3" Samples.s3_resolver ∅
               = Some (<["s3" := Samples.s3_resolver]> ∅)).
  { unfold registry.Register. now rewrite lookup_empty. }
  destruct (Register_then_Resolve Samples.quote Samples.parse "s3"
              Samples.s3_resolver ∅ (<["s3" := Samples.s3_resolver]> ∅)
              Samples.url_s3 Mem.start HR) as (H1 & _ & H3).
  split; [now apply H1|]. now rewrite (H3 "s3://bkt/x" eq_refl eq_refl).
Defined.

Lemma Resolve_unknown_scheme_witness :
  (exists e',
     registry.Resolve Samples.quote (<["s3" := Samples.s3_resolver]> ∅)
       Samples.url_ftp Mem.start = ((None, Some e'), Mem.start))
  /\ registry.Connect Samples.quote Samples.parse
       (<["s3" := Samples.s3_resolver]> ∅) "::" Mem.start
     = ((None, Some (OtherError "parse")), Mem.start).
Proof.
  apply (Resolve_unknown_scheme Samples.quote Samples.parse
           (<["s3" := Samples.s3_resolver]> ∅) Samples.url_ftp "::"
           (OtherError "parse") Mem.start); reflexivity.
Defined.

(** * Names that are already clean *)

Section CleanNames.
Import GoStrings GoStringsFacts GoPath GoPathFacts Subtree.

Lemma proper_written e : proper e -> written e.
Proof. intros (H1 & H2 & _ & H4). now repeat split. Qed.

Lemma proper_no_slash cs :
  Forall proper cs -> Forall (fun e => has_slash e = false) cs.
Proof. intros H. eapply Forall_impl; [exact H|]. now intros e (_ & _ & _ & He). Qed.

(** Rooting a name that is made of proper elements changes nothing. *)
Lemma Join_slash_clean cs :
  Forall proper cs -> Join ["/"; join cs] = "/" +:+ join cs.
Proof.
  intros H.
  change (Join ["/"; join cs])
    with (render true (clean_elems true ("" :: "" :: split (join cs)))).
  unfold clean_elems. simpl fold_left.
  change (clean_step true (clean_step true [] "") "") with (@nil string).
  destruct cs as [|c cs].
  - reflexivity.
  - rewrite split_join by (try apply proper_no_slash; assumption || discriminate).
    rewrite clean_fold_proper by assumption.
    unfold render. now rewrite app_nil_r, rev_involutive.
Qed.

Lemma join_not_rooted cs :
  Forall proper cs -> cs <> [] -> rooted (join cs) = false /\ join cs <> "".
Proof.
  intros H Hne. destruct cs as [|c cs]; [congruence|].
  inversion H as [|? ? (Hc1 & _ & _ & Hc4) _]; subst.
  destruct c as [|a c]; [congruence|].
  simpl in Hc4. apply orb_false_iff in Hc4 as [Ha _].
  destruct cs; simpl; [now split|].
  rewrite app_cons. simpl. now split.
Qed.

(** A prefix made of proper elements and a closing slash cleans to these
    elements. *)
Lemma Clean_join_slash cs :
  Forall proper cs -> cs <> [] -> Clean (join cs +:+ "/") = join cs.
Proof.
  intros H Hne. destruct (join_not_rooted cs H Hne) as (Hr & Hn).
  unfold Clean.
  assert (E : String.eqb (join cs +:+ "/") "" = false).
  { apply eqb_false_iff. destruct (join cs); [congruence|discriminate]. }
  rewrite E.
  assert (Hr' : rooted (join cs +:+ "/") = false).
  { destruct (join cs); [congruence|exact Hr]. }
  rewrite Hr'.
  replace (join cs +:+ "/") with (join cs +:+ "/" +:+ "") by now rewrite app_empty_r.
  unfold clean_elems. rewrite split_app, fold_left_app.
  rewrite split_join; [|now apply proper_no_slash|exact Hne].
  rewrite (clean_fold_proper false cs []) by assumption.
  change (fold_left (clean_step false) (split "") (rev cs ++ []))
    with (rev cs ++ []).
  rewrite app_nil_r. unfold render.
  destruct (rev cs) eqn:Er.
  - apply (f_equal (@rev string)) in Er. rewrite rev_involutive in Er.
    simpl in Er. congruence.
  - rewrite <- Er. now rewrite rev_involutive.
Qed.

Lemma under_proper cs0 cs :
  Forall proper cs0 -> cs0 <> [] -> cs <> [] ->
  under (join cs0) cs = (join cs0 +:+ "/") +:+ join cs.
Proof.
  intros H0 Hne0 Hne.
  assert (Hw : Forall written cs0).
  { eapply Forall_impl; [exact H0|]. apply proper_written. }
  destruct (join_written cs0 Hw Hne0) as (_ & J2 & J3).
  apply eqb_false_iff in J2, J3. unfold under.
  destruct cs; [congruence|]. now rewrite J3, J2.
Qed.

(** X20: a name made of proper path elements resolves, in the local bucket, to
    the cleaned root followed by the name as it is. *)
Theorem resolve_clean_name (rt : string) (cs : list string) :
  Forall proper cs ->
  bfsos.resolve (bfsos.New rt) (join cs)
  = under (Clean (bfsos.root (bfsos.New rt))) cs.
Proof.
  intros H. unfold bfsos.resolve. rewrite Join_slash_clean by assumption.
  apply Join_under; [|assumption].
  simpl. destruct (Clean _); discriminate.
Qed.

End CleanNames.

Lemma resolve_clean_name_witness :
  bfsos.resolve (bfsos.New "/tmp/data/") "a/b.txt" = "/tmp/data/a/b.txt".
Proof.
  apply (resolve_clean_name "/tmp/data/" ["a"; "b.txt"]).
  repeat constructor; discriminate.
Defined.

Section RoundTrip.
Import GoStrings GoStringsFacts GoPath GoPathFacts Subtree.

Context {W R : Type}.
Variable api : s3.API W R.

Lemma HasPrefix_slash_rooted s : HasPrefix s "/" = rooted s.
Proof.
  unfold HasPrefix. destruct s as [|c s]; [reflexivity|].
  change (strip "/" (String c s)) with (if Ascii.eqb "/" c then Some s else None).
  simpl rooted. rewrite Ascii.eqb_sym. now destruct (Ascii.eqb c "/").
Qed.

(** Names go to the backend and come back unchanged: under a prefix made of
    proper path elements and a closing slash, a name made of proper path
    elements is resolved to the prefix followed by the name, and
    [stripPrefix] of that key is the name again; so the key of a name that
    a listing shows is the key that was listed.  ([withPrefix] joins
    through [internal.WithinNamespace], as modelled above.) *)
Theorem prefix_round_trip (b : bfss3.bucket) (cs0 cs : list string) :
  bfss3.Prefix (bfss3.config b) = join cs0 +:+ "/" ->
  Forall proper cs0 -> cs0 <> [] ->
  Forall proper cs -> cs <> [] ->
  bfss3.withPrefix b (join cs) = bfss3.Prefix (bfss3.config b) +:+ join cs
  /\ bfss3.stripPrefix b (bfss3.withPrefix b (join cs)) = join cs
  /\ bfss3.withPrefix b
       (bfss3.stripPrefix b (bfss3.Prefix (bfss3.config b) +:+ join cs))
     = bfss3.Prefix (bfss3.config b) +:+ join cs.
Proof.
  intros Hp H0 Hne0 H Hne.
  assert (Hpne : String.eqb (bfss3.Prefix (bfss3.config b)) "" = false).
  { apply eqb_false_iff. rewrite Hp. destruct (join cs0); discriminate. }
  assert (Hwith : bfss3.withPrefix b (join cs)
                  = bfss3.Prefix (bfss3.config b) +:+ join cs).
  { unfold bfss3.withPrefix, internal.WithinNamespace. rewrite Hpne.
    rewrite Join_slash_clean by assumption.
    now rewrite TrimPrefix_app. }
  assert (Hstrip : bfss3.stripPrefix b (bfss3.Prefix (bfss3.config b) +:+ join cs)
                   = join cs).
  { unfold bfss3.stripPrefix. rewrite Hpne, TrimPrefix_app.
    apply TrimPrefix_no_prefix. rewrite HasPrefix_slash_rooted.
    now apply join_not_rooted. }
  split; [exact Hwith|]. split.
  - now rewrite Hwith.
  - now rewrite Hstrip.
Qed.

(** X21: with an empty prefix names are keys: [withPrefix] and [stripPrefix]
    return the name as it is, [Copy] writes to the key [dst], and for a
    bucket name that is a proper path element and a source made of proper
    elements it copies from [/bucket/src]. *)
Theorem Copy_without_prefix (b : bfss3.bucket) (cs : list string)
    (dst : string) (st : St W) :
  bfss3.Prefix (bfss3.config b) = "" ->
  proper (bfss3.name b) ->
  Forall proper cs -> cs <> [] ->
  bfss3.withPrefix b dst = dst
  /\ bfss3.stripPrefix b dst = dst
  /\ calls (snd (bfss3.Copy api b (join cs) dst st))
     = calls st ++
       [CallCopyObject (bfss3.name b)
          ("/" +:+ bfss3.name b +:+ "/" +:+ join cs) dst].
Proof.
  intros Hp Hb H Hne.
  unfold bfss3.withPrefix, bfss3.stripPrefix. rewrite Hp. simpl String.eqb.
  split; [reflexivity|]. split; [reflexivity|].
  unfold bfss3.Copy, bind, call, bfss3.withPrefix. rewrite Hp. simpl String.eqb.
  cbv iota.
  destruct (s3.CopyObjectWithContext _ _ _) as [e w']. cbn [snd calls ret].
  do 3 f_equal.
  assert (E : Join ["/"; bfss3.name b; join cs]
              = Join ["/"; join (bfss3.name b :: cs)]).
  { destruct cs; [congruence|]. reflexivity. }
  rewrite E, Join_slash_clean by now constructor.
  destruct cs; [congruence|]. reflexivity.
Qed.

End RoundTrip.

Lemma prefix_round_trip_witness :
  bfss3.withPrefix bucket_x "a/b.txt" = "x/a/b.txt"
  /\ bfss3.stripPrefix bucket_x (bfss3.withPrefix bucket_x "a/b.txt") = "a/b.txt"
  /\ bfss3.withPrefix bucket_x (bfss3.stripPrefix bucket_x "x/a/b.txt")
     = "x/a/b.txt".
Proof.
  apply (prefix_round_trip bucket_x ["x"] ["a"; "b.txt"]);
    try reflexivity; try discriminate; repeat constructor; discriminate.
Defined.

Lemma Copy_without_prefix_witness :
  calls (snd (bfss3.Copy Mem.api (bfss3.New "bkt" None) "a/b.txt" "c.txt" Mem.start))
  = [CallCopyObject "bkt" "/bkt/a/b.txt" "c.txt"].
Proof.
  apply (Copy_without_prefix Mem.api (bfss3.New "bkt" None) ["a"; "b.txt"]
           "c.txt" Mem.start);
    try reflexivity; try discriminate; repeat constructor; discriminate.
Defined.

(** * What the Google Cloud Storage iterator yields *)

Section GsLoop.
Import gsiter.

Context {W I : Type}.
Variable api : bfsgs.API W I.
Variable Match : string -> string -> bool * option error.

Lemma gs_nextLoop_mono fuel (i : bfsgs.iterator I) (st : St W) r i' st' :
  bfsgs.nextLoop api Match fuel i st = ((Some r, i'), st') ->
  forall fuel', (fuel <= fuel')%nat ->
  bfsgs.nextLoop api Match fuel' i st = ((Some r, i'), st').
Proof.
  revert i st; induction fuel as [|fuel IH]; intros i st H fuel' Hle.
  - destruct fuel'; [exact H|]. revert H. simpl. unfold bind, call.
    destruct (bfsgs.IterNext api _ _) as [[[obj|e] it] w1]; simpl; [|auto].
    destruct (Match _ _) as [[|] [e|]]; simpl; auto. unfold ret. intros [=].
  - destruct fuel' as [|fuel']; [lia|]. revert H. simpl. unfold bind, call.
    destruct (bfsgs.IterNext api _ _) as [[[obj|e] it] w1]; simpl; [|auto].
    destruct (Match _ _) as [[|] [e|]]; simpl; auto.
    intros H. apply IH; [exact H|lia].
Qed.

Lemma gs_Next_mono fuel (i : bfsgs.iterator I) (st : St W) r i' st' :
  bfsgs.Next api Match fuel i st = ((Some r, i'), st') ->
  forall fuel', (fuel <= fuel')%nat ->
  bfsgs.Next api Match fuel' i st = ((Some r, i'), st').
Proof.
  unfold bfsgs.Next. destruct (bfsgs.err i); [auto|]. apply gs_nextLoop_mono.
Qed.

Lemma gs_drain_Next n fuel (i : bfsgs.iterator I) (st : St W) :
  drain api Match (S n) fuel i st
  = (let '((r, i1), st1) := bfsgs.Next api Match fuel i st in
     match r with
     | None => ((None, i1), st1)
     | Some false => ((Some [], i1), st1)
     | Some true =>
         let '((o, i2), st2) := drain api Match n fuel i1 st1 in
         ((option_map (cons (Name i1, Size i1, ModTime i1)) o, i2), st2)
     end).
Proof.
  cbn [drain]. unfold bind.
  destruct (bfsgs.Next api Match fuel i st) as [[[[|]|] i1] st1]; cbn [fst snd];
    try reflexivity.
  unfold ret. now destruct (drain api Match n fuel i1 st1) as [[o i2] st2].
Qed.

Lemma gs_drain_Some_Next n fuel (i : bfsgs.iterator I) (st : St W) l i' st' :
  drain api Match (S n) fuel i st = ((Some l, i'), st') ->
  exists r i1 st1, bfsgs.Next api Match fuel i st = ((Some r, i1), st1).
Proof.
  rewrite gs_drain_Next.
  destruct (bfsgs.Next api Match fuel i st) as [[[r|] i1] st1]; [eauto|].
  intros [=].
Qed.

Lemma gs_drain_drawn b pat it w objs it' w' :
  drawn api it w objs it' w' ->
  matchable Match b pat objs ->
  forall (i : bfsgs.iterator I) (st : St W) n fuel,
    bfsgs.iter i = it ->
    world st = w ->
    bfsgs.parent i = b ->
    bfsgs.pattern i = pat ->
    bfsgs.err i = None ->
    (length (matching Match b pat objs) < n)%nat ->
    (length objs <= fuel)%nat ->
    exists i',
      drain api Match n fuel i st
      = ((Some (matching Match b pat objs), i'),
         mkSt w' (calls st ++ repeat CallGsNext (S (length objs))))
      /\ bfsgs.Error i' = None
      /\ bfsgs.iter i' = it'.
Proof.
  induction 1 as [it w it' w' Hnext|it w obj it1 w1 rest it' w' Hnext Hrest IH];
    intros Hm i st n fuel Hit Hw Hb Hpat He Hn Hf; subst it w.
  - destruct n as [|n]; [simpl in Hn; lia|].
    rewrite gs_drain_Next. unfold bfsgs.Next. rewrite He.
    assert (E : bfsgs.nextLoop api Match fuel i st
                = ((Some false,
                    {| bfsgs.parent := bfsgs.parent i; bfsgs.iter := it';
                       bfsgs.pattern := bfsgs.pattern i;
                       bfsgs.current := bfsgs.current i;
                       bfsgs.err := Some Done |}),
                   mkSt w' (calls st ++ [CallGsNext]))).
    { destruct fuel; simpl; unfold bind, call; rewrite Hnext; reflexivity. }
    rewrite E. eexists. split; [reflexivity|]. split; reflexivity.
  - inversion Hm as [|? ? Hobj Hm']; subst.
    unfold matching in *. simpl in Hn |- *.
    destruct (Match (bfsgs.pattern i) (shownName (bfsgs.parent i) obj))
      as [ok e] eqn:EM.
    simpl in Hobj. subst e. unfold shownName in EM.
    set (i1 := {| bfsgs.parent := bfsgs.parent i; bfsgs.iter := it1;
                  bfsgs.pattern := bfsgs.pattern i;
                  bfsgs.current := bfsgs.current i; bfsgs.err := bfsgs.err i |}).
    set (st1 := mkSt w1 (calls st ++ [CallGsNext])).
    assert (Hcalls : forall k,
              (calls st ++ [CallGsNext]) ++ repeat CallGsNext (S k)
              = calls st ++ repeat CallGsNext (S (S k))).
    { intros k. now rewrite <- List.app_assoc. }
    destruct ok; simpl in Hn |- *.
    + destruct n as [|n]; [lia|].
      rewrite gs_drain_Next. unfold bfsgs.Next. rewrite He.
      set (i2 := {| bfsgs.parent := bfsgs.parent i; bfsgs.iter := it1;
                    bfsgs.pattern := bfsgs.pattern i;
                    bfsgs.current :=
                      {| bfsgs.oname := bfsgs.stripPrefix (bfsgs.parent i)
                                          (bfsgs.AttrName obj);
                         bfsgs.size := bfsgs.AttrSize obj;
                         bfsgs.modTime := bfsgs.AttrUpdated obj |};
                    bfsgs.err := bfsgs.err i |}).
      assert (E : bfsgs.nextLoop api Match fuel i st = ((Some true, i2), st1)).
      { destruct fuel; simpl; unfold bind, call; rewrite Hnext; simpl;
          rewrite EM; reflexivity. }
      rewrite E.
      destruct (IH Hm' i2 st1 n fuel eq_refl eq_refl eq_refl eq_refl He
                  ltac:(lia) ltac:(simpl in Hf; lia)) as (i' & Hd & He' & Hi').
      rewrite Hd. exists i'. split; [|now split].
      cbv beta iota. unfold st1. cbn [calls]. rewrite Hcalls. reflexivity.
    + destruct fuel as [|fuel]; [simpl in Hf; lia|].
      destruct n as [|n]; [lia|].
      destruct (IH Hm' i1 st1 (S n) fuel eq_refl eq_refl eq_refl eq_refl He
                  ltac:(lia) ltac:(simpl in Hf; lia)) as (i0 & Hd0 & _).
      destruct (IH Hm' i1 st1 (S n) (S fuel) eq_refl eq_refl eq_refl eq_refl He
                  ltac:(lia) ltac:(simpl in Hf; lia)) as (i' & Hd & He' & Hi').
      exists i'. split; [|now split].
      change (calls st1) with (calls st ++ [CallGsNext]) in Hd.
      rewrite Hcalls in Hd.
      transitivity (drain api Match (S n) (S fuel) i1 st1); [|exact Hd].
      apply gs_drain_Some_Next in Hd0 as (r & j & sj & Hj).
      rewrite !gs_drain_Next.
      rewrite (gs_Next_mono _ _ _ _ _ _ Hj (S fuel) ltac:(lia)).
      assert (E : bfsgs.Next api Match (S fuel) i st
                  = bfsgs.Next api Match fuel i1 st1).
      { unfold bfsgs.Next. rewrite He.
        change (bfsgs.err i1) with (bfsgs.err i). rewrite He.
        simpl. unfold bind at 1, call at 1. rewrite Hnext.
        simpl. rewrite EM. reflexivity. }
      rewrite E, Hj. reflexivity.
Qed.

(** X16: the iterator of the Google Cloud Storage adapter yields what the
    storage iterator hands out: when that draws the objects [objs] and then
    reports [iterator.Done], and every match succeeds, the loop over [Next]
    reads through the accessors exactly the objects whose names, with the
    prefix taken off, match the pattern, in order; then [Next] answers
    [false] and [Error] returns nil, the end of the listing not being an
    error.  The storage iterator is drawn from once per object and once for
    the end. *)
Theorem gs_iterates_matches (i : bfsgs.iterator I) (st : St W)
    (objs : list bfsgs.ObjectAttrs) (it' : I) (w' : W) (n fuel : nat) :
  drawn api (bfsgs.iter i) (world st) objs it' w' ->
  matchable Match (bfsgs.parent i) (bfsgs.pattern i) objs ->
  bfsgs.err i = None ->
  (length (matching Match (bfsgs.parent i) (bfsgs.pattern i) objs) < n)%nat ->
  (length objs <= fuel)%nat ->
  exists i',
    drain api Match n fuel i st
    = ((Some (matching Match (bfsgs.parent i) (bfsgs.pattern i) objs), i'),
       mkSt w' (calls st ++ repeat CallGsNext (S (length objs))))
    /\ bfsgs.Error i' = None
    /\ Close i' = None.
Proof.
  intros Hd Hm He Hn Hf.
  destruct (gs_drain_drawn _ _ _ _ _ _ _ Hd Hm i st n fuel eq_refl eq_refl
              eq_refl eq_refl He Hn Hf) as (i' & H1 & H2 & _).
  exists i'. split; [exact H1|]. split; [exact H2|reflexivity].
Qed.

End GsLoop.

Lemma gs_iterates_matches_witness :
  exists i',
    gsiter.drain Mem.gapi gsiter.no_skip 3 3 (gsiter.gs_fresh "*") Mem.start
    = ((Some [("a.txt", 3, 10); ("b/c.txt", 5, 12)], i'),
       mkSt (world Mem.start)
         (calls Mem.start ++ repeat CallGsNext 4))
    /\ bfsgs.Error i' = None
    /\ gsiter.Close i' = None.
Proof.
  apply (gs_iterates_matches Mem.gapi gsiter.no_skip (gsiter.gs_fresh "*")
           Mem.start gsiter.three_objects [] (world Mem.start) 3 3).
  - repeat (eapply gsiter.drawn_more; [reflexivity|]).
    apply gsiter.drawn_done. reflexivity.
  - repeat constructor.
  - reflexivity.
  - simpl. lia.
  - simpl. lia.
Defined.

Lemma matchContents_filters_witness :
  bfss3.matchContents Mem.matcher bucket_x "a.txt"
    [Some Samples.listed_good; None;
     Some {| s3.Key := Some "x/a.txt"; s3.Size := None; s3.LastModified := None |}]
    []
  = (None, [{| bfss3.key := "a.txt"; bfss3.size := 0; bfss3.modTime := 0 |}]).
Proof.
  apply (matchContents_filters Mem.matcher bucket_x "a.txt"
           [Some Samples.listed_good; None;
            Some {| s3.Key := Some "x/a.txt"; s3.Size := None;
                    s3.LastModified := None |}] []).
  repeat constructor.
Defined.

Lemma matchContents_stops_witness :
  bfss3.matchContents Samples.fails_on_bad bucket_x "*"
    ([Some Samples.listed_good] ++ Some Samples.listed_bad
       :: [Some Samples.listed_good]) []
  = (Some ErrBadPattern,
     [{| bfss3.key := "good"; bfss3.size := 1; bfss3.modTime := 4 |}]).
Proof.
  apply (matchContents_stops Samples.fails_on_bad bucket_x "*"
           [Some Samples.listed_good] [Some Samples.listed_good]
           Samples.listed_bad ErrBadPattern []).
  - repeat constructor.
  - reflexivity.
Defined.
